(** * Voice input of the chat client: useWebSpeech and useVoiceRecording

    A shallow embedding of the two React hooks that implement voice input:

    - [WebSpeech]      : hooks/useWebSpeech.ts, the in-browser recognition
                         adapter;
    - [VoiceRecording] : hooks/useVoiceRecording.ts, the orchestrator that
                         chooses between the adapter and the
                         MediaRecorder + transcription fallback.

    and of the handlers of the two components around them:

    - [ChatInterface]  : the chat composer, which sends messages and
                         drives the voice hook from its microphone button;
    - [ImageUpload]    : components/ImageUpload.tsx, which validates and
                         uploads the image attached to a message.

    How React and JavaScript are read here.

    - A [useState] cell and a [useRef] cell are fields of a store that
      lives as long as the component.  A state setter writes the store; a
      [ref.current] access reads or writes the store directly.
    - A render reads the store and builds the values the hook returns.  The
      object returned by [useWebSpeech()] is a fresh literal on every
      render, so a callback made by [useCallback(..., [webSpeech])] closes
      over the object of its own render: what it reads through
      [webSpeech.transcript] is the value of that render, before and after
      an [await] alike.  The captured values are the [Closure] record.
    - A handler runs to completion; an [await] ends the handler and leaves
      a pending task that a later event resumes.
    - Every effect of a handler (a setter call, a call into the platform, a
      promise resolution) is appended to a log, in program order.
    - What the platform does (whether the engine or the recorder can be
      created and started, whether the device is granted, what the reader
      and the gateway answer) is an argument of the handler that meets it.
      A recorder that was started is taken to accept [stop()] and to
      deliver its stop event later.
    - [console.log] and [console.error] are left out.
    - Strings are sequences of 8-bit code units (the Latin-1 part of a
      JavaScript string). *)

From Stdlib Require Import String Ascii List Bool Arith NArith Lia QArith.
From Stdlib Require Import DecimalString DecimalN.
Import ListNotations.
Close Scope Q_scope.
Open Scope string_scope.
Open Scope list_scope.

(** ** JavaScript values *)

Module JS.

(** White space and line terminators removed by [String.prototype.trim]:
    TAB, LF, VT, FF, CR, SP and NBSP. *)
Definition is_white_space (c : ascii) : bool :=
  let n := nat_of_ascii c in
  Nat.eqb n 9 || Nat.eqb n 10 || Nat.eqb n 11 || Nat.eqb n 12
  || Nat.eqb n 13 || Nat.eqb n 32 || Nat.eqb n 160.

Fixpoint trimStart (s : string) : string :=
  match s with
  | EmptyString => EmptyString
  | String c rest => if is_white_space c then trimStart rest else s
  end.

Fixpoint trimEnd (s : string) : string :=
  match s with
  | EmptyString => EmptyString
  | String c rest =>
      match trimEnd rest with
      | EmptyString => if is_white_space c then EmptyString
                       else String c EmptyString
      | kept => String c kept
      end
  end.

Definition trim (s : string) : string := trimEnd (trimStart s).

(** Truthiness of a string: every string but the empty one. *)
Definition truthy (s : string) : bool :=
  match s with EmptyString => false | String _ _ => true end.

(** Truthiness of a [string | null] value. *)
Definition truthy_opt (v : option string) : bool :=
  match v with Some s => truthy s | None => false end.

(** [a || b] on [string | null] values. *)
Definition or_else (a b : option string) : option string :=
  if truthy_opt a then a else b.

(** [text || null]. *)
Definition or_null (a : option string) : option string :=
  if truthy_opt a then a else None.

(** [c || 0] on a number that may be missing: [undefined], [NaN] and
    [0] all give [0]. *)
Definition or_zero (c : option Q) : Q :=
  match c with
  | Some q => if Qeq_bool q 0 then 0%Q else q
  | None => 0%Q
  end.

(** [s.split(',')]. *)
Fixpoint split_comma_aux (cur : string) (s : string) : list string :=
  match s with
  | EmptyString => [cur]
  | String c rest =>
      if Ascii.eqb c ","%char
      then cur :: split_comma_aux EmptyString rest
      else split_comma_aux (cur ++ String c EmptyString)%string rest
  end.

Definition split_comma (s : string) : list string :=
  split_comma_aux EmptyString s.

(** [arr[arr.length - 1]], [undefined] on an empty array. *)
Definition last_elem {A : Type} (l : list A) : option A :=
  nth_error l (length l - 1).

End JS.

(** ** Effects and the handler monad *)

(** The fixed audio constraints passed to [getUserMedia]. *)
Record AudioConstraints : Type := {
  sampleRate : N;
  channelCount : nat;
  echoCancellation : bool;
  noiseSuppression : bool;
  autoGainControl : bool
}.

(** A track of a media stream, by identity. *)
Definition MediaStreamTrack : Type := nat.

(** A recorded chunk, by its size. *)
Definition Blob : Type := nat.

Inductive Effect : Type :=
  (* setters of useWebSpeech *)
| SetIsListening (b : bool)
| SetTranscript (s : string)
| SetSpeechError (e : option string)
| SetConfidence (c : Q)
  (* recognition engine *)
| NewSpeechRecognition
| EngineStart
| EngineStop
  (* setters of useVoiceRecording *)
| SetIsRecording (b : bool)
| SetIsProcessing (b : bool)
| SetError (e : option string)
  (* capture device, recorder, reader, gateway, timer, promise *)
| GetUserMedia (c : AudioConstraints)
| NewMediaRecorder (mime : string)
| RecorderStart (timeslice : nat)
| RecorderStop
| TrackStop (t : MediaStreamTrack)
| NewBlob (chunks : list Blob)
| ReadAsDataURL
| Invoke (fn : string) (audio : option string)
| SetTimeout (ms : nat)
| Resolve (v : option string).

(** How a handler ends: normally with a value, or by a thrown exception. *)
Inductive Completion (A : Type) : Type :=
| Normal (a : A)
| Thrown (e : string).
Arguments Normal {A} a.
Arguments Thrown {A} e.

(** A handler over a store [S]: the completion, the store it leaves and
    the effects it performed, oldest first. *)
Definition Run (S A : Type) : Type := S -> Completion A * S * list Effect.

Definition ret {S A : Type} (a : A) : Run S A :=
  fun s => (Normal a, s, []).

Definition bind {S A B : Type} (m : Run S A) (k : A -> Run S B) : Run S B :=
  fun s =>
    match m s with
    | (Normal a, s1, l1) =>
        match k a s1 with
        | (r, s2, l2) => (r, s2, l1 ++ l2)
        end
    | (Thrown e, s1, l1) => (Thrown e, s1, l1)
    end.

Definition throw {S A : Type} (e : string) : Run S A :=
  fun s => (Thrown e, s, []).

(** [try { m } catch (err) { h err }]. *)
Definition tryCatch {S A : Type} (m : Run S A) (h : string -> Run S A)
  : Run S A :=
  fun s =>
    match m s with
    | (Normal a, s1, l1) => (Normal a, s1, l1)
    | (Thrown e, s1, l1) =>
        match h e s1 with
        | (r, s2, l2) => (r, s2, l1 ++ l2)
        end
    end.

Definition read {S : Type} : Run S S :=
  fun s => (Normal s, s, []).

Definition update {S : Type} (f : S -> S) : Run S unit :=
  fun s => (Normal tt, f s, []).

Definition emit {S : Type} (e : Effect) : Run S unit :=
  fun s => (Normal tt, s, [e]).

(** Runs a handler of a part of the store on the whole store. *)
Definition lift {S T A : Type} (get : S -> T) (put : T -> S -> S)
  (m : Run T A) : Run S A :=
  fun s =>
    match m (get s) with
    | (r, t, l) => (r, put t s, l)
    end.

Declare Scope run_scope.
Delimit Scope run_scope with run.
Notation "x <- m ;; k" := (bind m (fun x => k))
  (at level 61, m at next level, right associativity) : run_scope.
Notation "m ;; k" := (bind m (fun _ => k))
  (at level 61, right associativity) : run_scope.
Open Scope run_scope.

Definition completion {S A : Type} (r : Completion A * S * list Effect)
  : Completion A := fst (fst r).
Definition store_of {S A : Type} (r : Completion A * S * list Effect)
  : S := snd (fst r).
Definition effects_of {S A : Type} (r : Completion A * S * list Effect)
  : list Effect := snd r.

(** ** hooks/useWebSpeech.ts *)

Module WebSpeech.

(** [window]: which recognition constructors it has. *)
Record Window : Type := {
  has_SpeechRecognition : bool;
  has_webkitSpeechRecognition : bool
}.

(** The engine object held in [recognition.current]: its configuration
    and which event handlers are installed. *)
Record Engine : Type := {
  continuous : bool;
  interimResults : bool;
  lang : string;
  maxAlternatives : nat;
  has_onstart : bool;
  has_onresult : bool;
  has_onerror : bool;
  has_onend : bool
}.

(** A freshly constructed engine, with the platform's defaults. *)
Definition fresh_engine : Engine :=
  {| continuous := false; interimResults := false; lang := "";
     maxAlternatives := 1;
     has_onstart := false; has_onresult := false;
     has_onerror := false; has_onend := false |}.

(** The hook's cells: four [useState] and the [recognition] ref. *)
Record State : Type := {
  st_isListening : bool;
  st_transcript : string;
  st_error : option string;
  st_confidence : Q;
  recognition : option Engine
}.

Definition initial : State :=
  {| st_isListening := false; st_transcript := ""; st_error := None;
     st_confidence := 0%Q; recognition := None |}.

(** The object the hook returns ([startListening] and [stopListening]
    are the functions below; [startListening] closes over
    [isSupported]). *)
Record Hook : Type := {
  isListening : bool;
  isSupported : bool;
  transcript : string;
  error : option string;
  confidence : Q
}.

(** ['webkitSpeechRecognition' in window || 'SpeechRecognition' in window] *)
Definition probe (w : Window) : bool :=
  has_webkitSpeechRecognition w || has_SpeechRecognition w.

Definition render (w : Window) (s : State) : Hook :=
  {| isListening := st_isListening s;
     isSupported := probe w;
     transcript := st_transcript s;
     error := st_error s;
     confidence := st_confidence s |}.

Definition with_isListening (b : bool) (s : State) : State :=
  {| st_isListening := b; st_transcript := st_transcript s;
     st_error := st_error s; st_confidence := st_confidence s;
     recognition := recognition s |}.
Definition with_transcript (t : string) (s : State) : State :=
  {| st_isListening := st_isListening s; st_transcript := t;
     st_error := st_error s; st_confidence := st_confidence s;
     recognition := recognition s |}.
Definition with_error (e : option string) (s : State) : State :=
  {| st_isListening := st_isListening s; st_transcript := st_transcript s;
     st_error := e; st_confidence := st_confidence s;
     recognition := recognition s |}.
Definition with_confidence (c : Q) (s : State) : State :=
  {| st_isListening := st_isListening s; st_transcript := st_transcript s;
     st_error := st_error s; st_confidence := c;
     recognition := recognition s |}.
Definition with_recognition (r : option Engine) (s : State) : State :=
  {| st_isListening := st_isListening s; st_transcript := st_transcript s;
     st_error := st_error s; st_confidence := st_confidence s;
     recognition := r |}.

Definition setIsListening (b : bool) : Run State unit :=
  update (with_isListening b) ;; emit (SetIsListening b).
Definition setTranscript (t : string) : Run State unit :=
  update (with_transcript t) ;; emit (SetTranscript t).
Definition setError (e : option string) : Run State unit :=
  update (with_error e) ;; emit (SetSpeechError e).
Definition setConfidence (c : Q) : Run State unit :=
  update (with_confidence c) ;; emit (SetConfidence c).

(** What the platform does when the engine is created and started. *)
Inductive EngineOutcome : Type :=
| EngineOk
| ConstructorThrows
| StartThrows.

(** [recognition.current = new SpeechRecognition()] *)
Definition new_SpeechRecognition (out : EngineOutcome) : Run State unit :=
  match out with
  | ConstructorThrows => throw "TypeError"
  | _ => emit NewSpeechRecognition ;;
         update (with_recognition (Some fresh_engine))
  end.

(** [recognition.current.field = value]; a [TypeError] on a null ref. *)
Definition assign (f : Engine -> Engine) : Run State unit :=
  s <- read ;;
  match recognition s with
  | Some e => update (with_recognition (Some (f e)))
  | None => throw "TypeError"
  end.

(** [recognition.current.start()] *)
Definition engine_start (out : EngineOutcome) : Run State unit :=
  s <- read ;;
  match recognition s with
  | None => throw "TypeError"
  | Some _ =>
      match out with
      | StartThrows => throw "InvalidStateError"
      | _ => emit EngineStart
      end
  end.

Definition set_continuous (b : bool) (e : Engine) : Engine :=
  {| continuous := b; interimResults := interimResults e; lang := lang e;
     maxAlternatives := maxAlternatives e;
     has_onstart := has_onstart e; has_onresult := has_onresult e;
     has_onerror := has_onerror e; has_onend := has_onend e |}.
Definition set_interimResults (b : bool) (e : Engine) : Engine :=
  {| continuous := continuous e; interimResults := b; lang := lang e;
     maxAlternatives := maxAlternatives e;
     has_onstart := has_onstart e; has_onresult := has_onresult e;
     has_onerror := has_onerror e; has_onend := has_onend e |}.
Definition set_lang (l : string) (e : Engine) : Engine :=
  {| continuous := continuous e; interimResults := interimResults e;
     lang := l; maxAlternatives := maxAlternatives e;
     has_onstart := has_onstart e; has_onresult := has_onresult e;
     has_onerror := has_onerror e; has_onend := has_onend e |}.
Definition set_maxAlternatives (n : nat) (e : Engine) : Engine :=
  {| continuous := continuous e; interimResults := interimResults e;
     lang := lang e; maxAlternatives := n;
     has_onstart := has_onstart e; has_onresult := has_onresult e;
     has_onerror := has_onerror e; has_onend := has_onend e |}.
Definition set_onstart (e : Engine) : Engine :=
  {| continuous := continuous e; interimResults := interimResults e;
     lang := lang e; maxAlternatives := maxAlternatives e;
     has_onstart := true; has_onresult := has_onresult e;
     has_onerror := has_onerror e; has_onend := has_onend e |}.
Definition set_onresult (e : Engine) : Engine :=
  {| continuous := continuous e; interimResults := interimResults e;
     lang := lang e; maxAlternatives := maxAlternatives e;
     has_onstart := has_onstart e; has_onresult := true;
     has_onerror := has_onerror e; has_onend := has_onend e |}.
Definition set_onerror (e : Engine) : Engine :=
  {| continuous := continuous e; interimResults := interimResults e;
     lang := lang e; maxAlternatives := maxAlternatives e;
     has_onstart := has_onstart e; has_onresult := has_onresult e;
     has_onerror := true; has_onend := has_onend e |}.
Definition set_onend (e : Engine) : Engine :=
  {| continuous := continuous e; interimResults := interimResults e;
     lang := lang e; maxAlternatives := maxAlternatives e;
     has_onstart := has_onstart e; has_onresult := has_onresult e;
     has_onerror := has_onerror e; has_onend := true |}.

(** [startListening], a callback over [isSupported]. *)
Definition startListening (isSupported : bool) (out : EngineOutcome)
  : Run State unit :=
  if negb isSupported then
    setError (Some "Speech recognition is not supported in this browser")
  else
    tryCatch
      (setError None ;;
       setTranscript "" ;;
       new_SpeechRecognition out ;;
       assign (set_continuous false) ;;
       assign (set_interimResults true) ;;
       assign (set_lang "en-US") ;;
       assign (set_maxAlternatives 1) ;;
       assign set_onstart ;;
       assign set_onresult ;;
       assign set_onerror ;;
       assign set_onend ;;
       engine_start out)
      (fun _ =>
         setError (Some "Failed to start speech recognition") ;;
         setIsListening false).

(** One entry of [event.results], with its first alternative. *)
Record SpeechResult : Type := {
  alt_transcript : string;
  alt_confidence : option Q;
  isFinal : bool
}.

(** [recognition.current.onstart] *)
Definition onstart : Run State unit := setIsListening true.

(** [recognition.current.onresult] *)
Definition onresult (results : list SpeechResult) : Run State unit :=
  match JS.last_elem results with
  | None => throw "TypeError"
  | Some result =>
      setTranscript (alt_transcript result) ;;
      setConfidence (JS.or_zero (alt_confidence result)) ;;
      if isFinal result then setIsListening false else ret tt
  end.

(** [recognition.current.onerror] *)
Definition onerror (code : string) : Run State unit :=
  setError (Some ("Speech recognition error: " ++ code)%string) ;;
  setIsListening false.

(** [recognition.current.onend] *)
Definition onend : Run State unit := setIsListening false.

(** [stopListening] *)
Definition stopListening : Run State unit :=
  s <- read ;;
  match recognition s with
  | Some _ => emit EngineStop
  | None => ret tt
  end.

End WebSpeech.

(** ** hooks/useVoiceRecording.ts *)

Module VoiceRecording.

(** The object held in [mediaRecorder.current]: the stream it records,
    its encoding and which handlers are installed. *)
Record MediaRecorder : Type := {
  stream : list MediaStreamTrack;
  mimeType : string;
  has_ondataavailable : bool;
  has_onstop : bool
}.

(** The hook's own cells: three [useState] and two refs. *)
Record State : Type := {
  st_isRecording : bool;
  st_isProcessing : bool;
  st_error : option string;
  mediaRecorder : option MediaRecorder;
  audioChunks : list Blob
}.

Definition initial : State :=
  {| st_isRecording := false; st_isProcessing := false; st_error := None;
     mediaRecorder := None; audioChunks := [] |}.

(** The component's store: the host window, the cells of [useWebSpeech]
    and the cells of [useVoiceRecording]. *)
Record Store : Type := {
  window : WebSpeech.Window;
  speech : WebSpeech.State;
  voice : State
}.

Definition initial_store (w : WebSpeech.Window) : Store :=
  {| window := w; speech := WebSpeech.initial; voice := initial |}.

(** What [startRecording] and [stopRecording] of one render close over:
    the [isRecording] cell and the [webSpeech] object of that render. *)
Record Closure : Type := {
  c_isRecording : bool;
  webSpeech : WebSpeech.Hook
}.

Definition closure_of (s : Store) : Closure :=
  {| c_isRecording := st_isRecording (voice s);
     webSpeech := WebSpeech.render (window s) (speech s) |}.

(** The object the hook returns. *)
Record Hook : Type := {
  isRecording : bool;
  isProcessing : bool;
  error : option string
}.

Definition render (s : Store) : Hook :=
  let cl := closure_of s in
  {| isRecording := c_isRecording cl || WebSpeech.isListening (webSpeech cl);
     isProcessing := st_isProcessing (voice s);
     error := JS.or_else (st_error (voice s))
                         (WebSpeech.error (webSpeech cl)) |}.

Definition with_voice (v : State) (s : Store) : Store :=
  {| window := window s; speech := speech s; voice := v |}.
Definition with_speech (t : WebSpeech.State) (s : Store) : Store :=
  {| window := window s; speech := t; voice := voice s |}.

Definition with_isRecording (b : bool) (v : State) : State :=
  {| st_isRecording := b; st_isProcessing := st_isProcessing v;
     st_error := st_error v; mediaRecorder := mediaRecorder v;
     audioChunks := audioChunks v |}.
Definition with_isProcessing (b : bool) (v : State) : State :=
  {| st_isRecording := st_isRecording v; st_isProcessing := b;
     st_error := st_error v; mediaRecorder := mediaRecorder v;
     audioChunks := audioChunks v |}.
Definition with_error (e : option string) (v : State) : State :=
  {| st_isRecording := st_isRecording v;
     st_isProcessing := st_isProcessing v;
     st_error := e; mediaRecorder := mediaRecorder v;
     audioChunks := audioChunks v |}.
Definition with_mediaRecorder (r : option MediaRecorder) (v : State)
  : State :=
  {| st_isRecording := st_isRecording v;
     st_isProcessing := st_isProcessing v;
     st_error := st_error v; mediaRecorder := r;
     audioChunks := audioChunks v |}.
Definition with_audioChunks (c : list Blob) (v : State) : State :=
  {| st_isRecording := st_isRecording v;
     st_isProcessing := st_isProcessing v;
     st_error := st_error v; mediaRecorder := mediaRecorder v;
     audioChunks := c |}.

Definition on_voice (f : State -> State) : Run Store unit :=
  update (fun s => with_voice (f (voice s)) s).

(** A call into [useWebSpeech]. *)
Definition in_speech {A : Type} (m : Run WebSpeech.State A) : Run Store A :=
  lift speech with_speech m.

Definition setIsRecording (b : bool) : Run Store unit :=
  on_voice (with_isRecording b) ;; emit (SetIsRecording b).
Definition setIsProcessing (b : bool) : Run Store unit :=
  on_voice (with_isProcessing b) ;; emit (SetIsProcessing b).
Definition setError (e : option string) : Run Store unit :=
  on_voice (with_error e) ;; emit (SetError e).

(** [resolve(v)], or [return v] from the async function. *)
Definition resolve (v : option string) : Run Store (option string) :=
  emit (Resolve v) ;; ret v.

Definition constraints : AudioConstraints :=
  {| sampleRate := 16000%N; channelCount := 1; echoCancellation := true;
     noiseSuppression := true; autoGainControl := true |}.

(** What the platform answers to [getUserMedia]. *)
Inductive AcquireOutcome : Type :=
| Granted (tracks : list MediaStreamTrack)
| Denied.

(** What the platform does with the recorder. *)
Record RecorderPlatform : Type := {
  opus_supported : bool;
  constructor_throws : bool;
  start_throws : bool
}.

(** How far [startRecording] got when its handler ended. *)
Inductive StartStatus : Type :=
| StartReturned
| AwaitGetUserMedia.

(** [startRecording], up to its [return] or its [await]. *)
Definition startRecording (cl : Closure) (eng : WebSpeech.EngineOutcome)
  : Run Store StartStatus :=
  setError None ;;
  if WebSpeech.isSupported (webSpeech cl) then
    in_speech (WebSpeech.startListening
                 (WebSpeech.isSupported (webSpeech cl)) eng) ;;
    setIsRecording true ;;
    ret StartReturned
  else
    emit (GetUserMedia constraints) ;;
    ret AwaitGetUserMedia.

(** [mediaRecorder.current = new MediaRecorder(stream, { mimeType })] *)
Definition new_MediaRecorder (p : RecorderPlatform)
  (tracks : list MediaStreamTrack) : Run Store unit :=
  let mime := if opus_supported p then "audio/webm;codecs=opus"
              else "audio/webm" in
  if constructor_throws p then throw "NotSupportedError"
  else
    emit (NewMediaRecorder mime) ;;
    on_voice (with_mediaRecorder
                (Some {| stream := tracks; mimeType := mime;
                         has_ondataavailable := false;
                         has_onstop := false |})).

(** [mediaRecorder.current.field = handler]; a [TypeError] on null. *)
Definition assign (f : MediaRecorder -> MediaRecorder) : Run Store unit :=
  s <- read ;;
  match mediaRecorder (voice s) with
  | Some r => on_voice (with_mediaRecorder (Some (f r)))
  | None => throw "TypeError"
  end.

Definition set_ondataavailable (r : MediaRecorder) : MediaRecorder :=
  {| stream := stream r; mimeType := mimeType r;
     has_ondataavailable := true; has_onstop := has_onstop r |}.
Definition set_onstop (r : MediaRecorder) : MediaRecorder :=
  {| stream := stream r; mimeType := mimeType r;
     has_ondataavailable := has_ondataavailable r; has_onstop := true |}.

(** [mediaRecorder.current.start(timeslice)] *)
Definition recorder_start (p : RecorderPlatform) (timeslice : nat)
  : Run Store unit :=
  if start_throws p then throw "NotSupportedError"
  else emit (RecorderStart timeslice).

(** [startRecording] after [await getUserMedia(...)], inside its [try]. *)
Definition startRecording_acquired (acq : AcquireOutcome)
  (p : RecorderPlatform) : Run Store unit :=
  tryCatch
    (match acq with
     | Denied => throw "NotAllowedError"
     | Granted tracks =>
         new_MediaRecorder p tracks ;;
         on_voice (with_audioChunks []) ;;
         assign set_ondataavailable ;;
         recorder_start p 1000 ;;
         setIsRecording true
     end)
    (fun _ =>
       setError (Some
         "Failed to start recording. Please check microphone permissions.")).

(** [mediaRecorder.current.ondataavailable] *)
Definition ondataavailable (data : Blob) : Run Store unit :=
  if Nat.ltb 0 data
  then on_voice (fun v => with_audioChunks (audioChunks v ++ [data]) v)
  else ret tt.

(** How far [stopRecording] got when its handler ended. *)
Inductive StopStatus : Type :=
| Resolved (v : option string)
| AwaitSettle
| AwaitRecorderStop.

(** [stopRecording], up to its [return], its [await] of the settle timer
    or its call of [mediaRecorder.current.stop()]. *)
Definition stopRecording (cl : Closure) : Run Store StopStatus :=
  if negb (c_isRecording cl) then
    v <- resolve None ;; ret (Resolved v)
  else if WebSpeech.isListening (webSpeech cl) then
    in_speech WebSpeech.stopListening ;;
    setIsRecording false ;;
    emit (SetTimeout 1000) ;;
    ret AwaitSettle
  else
    s <- read ;;
    match mediaRecorder (voice s) with
    | None => v <- resolve None ;; ret (Resolved v)
    | Some _ =>
        s' <- read ;;
        match mediaRecorder (voice s') with
        | None => v <- resolve None ;; ret (Resolved v)
        | Some _ =>
            assign set_onstop ;;
            emit RecorderStop ;;
            ret AwaitRecorderStop
        end
    end.

(** [stopRecording] after the settle timer, reading the [webSpeech]
    object it closed over. *)
Definition stopRecording_settled (cl : Closure)
  : Run Store (option string) :=
  let transcript := WebSpeech.transcript (webSpeech cl) in
  if JS.truthy transcript && JS.truthy (JS.trim transcript) then
    resolve (Some (JS.trim transcript))
  else
    match WebSpeech.error (webSpeech cl) with
    | Some e =>
        if JS.truthy e then
          setError (Some ("Web Speech API error: " ++ e)%string) ;;
          resolve None
        else
          setError (Some "No speech detected. Please try again.") ;;
          resolve None
    | None =>
        setError (Some "No speech detected. Please try again.") ;;
        resolve None
    end.

(** [tracks.forEach(track => track.stop())] *)
Fixpoint stop_tracks (tracks : list MediaStreamTrack) : Run Store unit :=
  match tracks with
  | [] => ret tt
  | t :: rest => emit (TrackStop t) ;; stop_tracks rest
  end.

(** How far the [onstop] handler got. *)
Inductive Progress : Type :=
| Settled (v : option string)
| Pending.

(** [mediaRecorder.current.onstop]; [blob_throws] says whether building
    the blob or starting the reader throws. *)
Definition onstop (blob_throws : bool) : Run Store Progress :=
  setIsRecording false ;;
  setIsProcessing true ;;
  p <- tryCatch
         (s <- read ;;
          (if blob_throws then throw "Error"
           else emit (NewBlob (audioChunks (voice s)))) ;;
          emit ReadAsDataURL ;;
          ret Pending)
         (fun _ =>
            setError (Some "Failed to process recording.") ;;
            setIsProcessing false ;;
            v <- resolve None ;;
            ret (Settled v)) ;;
  s <- read ;;
  stop_tracks (match mediaRecorder (voice s) with
               | Some r => stream r
               | None => []
               end) ;;
  ret p.

(** The [catch] of the [reader.onloadend] handler. *)
Definition processing_failed : Run Store Progress :=
  setError (Some
    "API quota exceeded. Please try the built-in voice recognition.") ;;
  setIsProcessing false ;;
  v <- resolve None ;;
  ret (Settled v).

(** [reader.onloadend], up to [await supabase.functions.invoke(...)];
    [result] is [reader.result], null when the read failed. *)
Definition onloadend (result : option string) : Run Store Progress :=
  tryCatch
    (match result with
     | None => throw "TypeError"
     | Some url =>
         emit (Invoke "voice-to-text" (nth_error (JS.split_comma url) 1)) ;;
         ret Pending
     end)
    (fun _ => processing_failed).

(** The [data] of a gateway answer. *)
Record GatewayData : Type := { text : option string }.

(** What [supabase.functions.invoke] gives: a rejection, or an object
    [{ data, error }] whose [error] is set or not. *)
Inductive GatewayResponse : Type :=
| InvokeRejects
| InvokeReturns (data : option GatewayData) (has_error : bool).

(** [reader.onloadend] after the gateway answered. *)
Definition onloadend_answered (resp : GatewayResponse)
  : Run Store Progress :=
  tryCatch
    (match resp with
     | InvokeRejects => throw "Error"
     | InvokeReturns data has_error =>
         if has_error then throw "FunctionsError"
         else
           setIsProcessing false ;;
           match data with
           | None => throw "TypeError"
           | Some d =>
               v <- resolve (JS.or_null (text d)) ;;
               ret (Settled v)
           end
     end)
    (fun _ => processing_failed).

End VoiceRecording.

(** ** The component over time *)

Module App.

Import VoiceRecording.

(** A suspended piece of work, resumed by a later event. *)
Inductive Task : Type :=
| GettingUserMedia            (* startRecording at [await getUserMedia] *)
| Settling (cl : Closure)     (* stopRecording at the settle timer *)
| RecorderStopping            (* [stop()] called, [onstop] not yet run *)
| Reading                     (* [readAsDataURL] in progress *)
| Transcribing.               (* [invoke] in progress *)

Record Sys : Type := {
  store : Store;
  pending : list Task;
  history : list Effect
}.

Definition boot (w : WebSpeech.Window) : Sys :=
  {| store := initial_store w; pending := []; history := [] |}.

(** What can happen next.  A number picks the pending task resumed. *)
Inductive Event : Type :=
| CallStartRecording (eng : WebSpeech.EngineOutcome)
| CallStopRecording
| UserMediaAnswered (n : nat) (acq : AcquireOutcome) (p : RecorderPlatform)
| TimerFired (n : nat)
| RecorderStopped (n : nat) (blob_throws : bool)
| ReaderLoaded (n : nat) (result : option string)
| GatewayAnswered (n : nat) (resp : GatewayResponse)
| EngineStarted
| EngineResult (results : list WebSpeech.SpeechResult)
| EngineError (code : string)
| EngineEnded
| DataAvailable (data : Blob).

Fixpoint remove_nth {A : Type} (n : nat) (l : list A) : list A :=
  match n, l with
  | _, [] => []
  | O, _ :: rest => rest
  | S m, x :: rest => x :: remove_nth m rest
  end.

(** The state after a handler ran: its store, its effects appended, and
    the tasks it left pending (none when it threw). *)
Definition commit {A : Type} (s : Sys) (rest : list Task)
  (next : A -> list Task) (r : Completion A * Store * list Effect) : Sys :=
  {| store := store_of r;
     pending := rest ++ match completion r with
                        | Normal a => next a
                        | Thrown _ => []
                        end;
     history := history s ++ effects_of r |}.

Definition after_start (st : StartStatus) : list Task :=
  match st with
  | StartReturned => []
  | AwaitGetUserMedia => [GettingUserMedia]
  end.

Definition after_stop (cl : Closure) (st : StopStatus) : list Task :=
  match st with
  | Resolved _ => []
  | AwaitSettle => [Settling cl]
  | AwaitRecorderStop => [RecorderStopping]
  end.

Definition after_progress (next : Task) (p : Progress) : list Task :=
  match p with
  | Settled _ => []
  | Pending => [next]
  end.

Definition no_task {A : Type} (_ : A) : list Task := [].

(** Whether the engine in [recognition.current] has the handler. *)
Definition engine_has (h : WebSpeech.Engine -> bool) (s : Sys) : bool :=
  match WebSpeech.recognition (speech (store s)) with
  | Some e => h e
  | None => false
  end.

Definition recorder_has (h : MediaRecorder -> bool) (s : Sys) : bool :=
  match mediaRecorder (voice (store s)) with
  | Some r => h r
  | None => false
  end.

(** One event; [None] when the event cannot happen in [s].  A call of
    [startRecording] or [stopRecording] is a call of the function of the
    latest render. *)
Definition step (ev : Event) (s : Sys) : option Sys :=
  let rest n := remove_nth n (pending s) in
  match ev with
  | CallStartRecording eng =>
      Some (commit s (pending s) after_start
              (startRecording (closure_of (store s)) eng (store s)))
  | CallStopRecording =>
      let cl := closure_of (store s) in
      Some (commit s (pending s) (after_stop cl)
              (stopRecording cl (store s)))
  | UserMediaAnswered n acq p =>
      match nth_error (pending s) n with
      | Some GettingUserMedia =>
          Some (commit s (rest n) no_task
                  (startRecording_acquired acq p (store s)))
      | _ => None
      end
  | TimerFired n =>
      match nth_error (pending s) n with
      | Some (Settling cl) =>
          Some (commit s (rest n) no_task
                  (stopRecording_settled cl (store s)))
      | _ => None
      end
  | RecorderStopped n blob_throws =>
      match nth_error (pending s) n with
      | Some RecorderStopping =>
          if recorder_has has_onstop s then
            Some (commit s (rest n) (after_progress Reading)
                    (onstop blob_throws (store s)))
          else None
      | _ => None
      end
  | ReaderLoaded n result =>
      match nth_error (pending s) n with
      | Some Reading =>
          Some (commit s (rest n) (after_progress Transcribing)
                  (onloadend result (store s)))
      | _ => None
      end
  | GatewayAnswered n resp =>
      match nth_error (pending s) n with
      | Some Transcribing =>
          Some (commit s (rest n) no_task
                  (onloadend_answered resp (store s)))
      | _ => None
      end
  | EngineStarted =>
      if engine_has WebSpeech.has_onstart s then
        Some (commit s (pending s) no_task
                (in_speech WebSpeech.onstart (store s)))
      else None
  | EngineResult results =>
      if engine_has WebSpeech.has_onresult s then
        Some (commit s (pending s) no_task
                (in_speech (WebSpeech.onresult results) (store s)))
      else None
  | EngineError code =>
      if engine_has WebSpeech.has_onerror s then
        Some (commit s (pending s) no_task
                (in_speech (WebSpeech.onerror code) (store s)))
      else None
  | EngineEnded =>
      if engine_has WebSpeech.has_onend s then
        Some (commit s (pending s) no_task
                (in_speech WebSpeech.onend (store s)))
      else None
  | DataAvailable data =>
      if recorder_has has_ondataavailable s then
        Some (commit s (pending s) no_task
                (ondataavailable data (store s)))
      else None
  end.

Fixpoint run (evs : list Event) (s : Sys) : option Sys :=
  match evs with
  | [] => Some s
  | ev :: rest =>
      match step ev s with
      | Some s' => run rest s'
      | None => None
      end
  end.

(** The states the component can be in. *)
Definition reachable (w : WebSpeech.Window) (s : Sys) : Prop :=
  exists evs, run evs (boot w) = Some s.

End App.

(** ** The chat composer (ChatInterface) *)

Module ChatInterface.

Inductive Sender : Type := user | assistant.

(** The uploaded image attached to the next message. *)
Record SelectedImage : Type := { url : string; name : string }.

(** A message of the list.  [content] is [undefined] when the gateway's
    data lacks the field read. *)
Record Message : Type := {
  id : string;
  content : option string;
  sender : Sender;
  timestamp : N;
  imageUrl : option string;
  imageName : option string
}.

(** The component's cells (the voice hook has its own store). *)
Record State : Type := {
  messages : list Message;
  inputValue : string;
  selectedImage : option SelectedImage
}.

Definition initial : State :=
  {| messages := []; inputValue := ""; selectedImage := None |}.

(** What the handlers of one render close over. *)
Record Render : Type := {
  r_inputValue : string;
  r_selectedImage : option SelectedImage;
  r_voice : VoiceRecording.Hook
}.

Definition render (s : State) (voice : VoiceRecording.Hook) : Render :=
  {| r_inputValue := inputValue s; r_selectedImage := selectedImage s;
     r_voice := voice |}.

(** The two clock readings of a handler: [Date.now()] and [new Date()],
    in milliseconds. *)
Record Clock : Type := { date_now : N; new_date : N }.

(** [n.toString()] on a non-negative integer. *)
Definition toString (n : N) : string :=
  DecimalString.NilZero.string_of_uint (N.to_uint n).

(** The body of a request to an edge function. *)
Inductive Body : Type :=
| ImageAnalysisBody (imageUrl : string) (message : string)
| ChatBody (message : string).

Inductive Output : Type :=
| InvokeFunction (fn : string) (body : Body)
| Toast (title description : string) (destructive : bool).

(** [setMessages(prev => f prev)], [setInputValue], [setSelectedImage]. *)
Definition setMessages (f : list Message -> list Message) (s : State)
  : State :=
  {| messages := f (messages s); inputValue := inputValue s;
     selectedImage := selectedImage s |}.
Definition setInputValue (v : string) (s : State) : State :=
  {| messages := messages s; inputValue := v;
     selectedImage := selectedImage s |}.
Definition setSelectedImage (i : option SelectedImage) (s : State) : State :=
  {| messages := messages s; inputValue := inputValue s;
     selectedImage := i |}.

(** How far [handleSendMessage] got: it returned, or it awaits the
    request, holding the image it sent. *)
Inductive SendStatus : Type :=
| SendReturned
| AwaitInvoke (currentImage : option SelectedImage).

Definition is_null {A : Type} (v : option A) : bool :=
  match v with Some _ => false | None => true end.

(** [handleSendMessage], up to its [return] or its [await]. *)
Definition handleSendMessage (r : Render) (c : Clock) (s : State)
  : State * list Output * SendStatus :=
  if negb (JS.truthy (JS.trim (r_inputValue r)))
     && is_null (r_selectedImage r)
  then (s, [], SendReturned)
  else
    let newMessage :=
      {| id := toString (date_now c);
         content := Some (r_inputValue r);
         sender := user;
         timestamp := new_date c;
         imageUrl := option_map url (r_selectedImage r);
         imageName := option_map name (r_selectedImage r) |} in
    let s1 := setMessages (fun prev => prev ++ [newMessage]) s in
    let messageText := r_inputValue r in
    let currentImage := r_selectedImage r in
    let s2 := setSelectedImage None (setInputValue "" s1) in
    match currentImage with
    | Some image =>
        (s2,
         [InvokeFunction "image-analysis"
            (ImageAnalysisBody (url image)
               (if JS.truthy messageText then messageText
                else "What do you see in this image?"))],
         AwaitInvoke currentImage)
    | None =>
        (s2, [InvokeFunction "chat-openai" (ChatBody messageText)],
         AwaitInvoke currentImage)
    end.

(** The [data] of an answer. *)
Record Data : Type := {
  analysis : option string;
  message : option string
}.

(** What [supabase.functions.invoke] gives: a rejection, or an object
    [{ data, error }] whose [error] is set or not. *)
Inductive Response : Type :=
| InvokeRejects
| InvokeReturns (data : option Data) (has_error : bool).

Definition apology : string :=
  "Sorry, I'm having trouble connecting to the AI service right now. Please try again later.".

(** The message appended by the [catch]. *)
Definition errorMessage (c : Clock) : Message :=
  {| id := toString (date_now c + 1);
     content := Some apology;
     sender := assistant;
     timestamp := new_date c;
     imageUrl := None;
     imageName := None |}.

(** [handleSendMessage] after the request was answered. *)
Definition handleSendMessage_answered (currentImage : option SelectedImage)
  (c : Clock) (resp : Response) (s : State) : State :=
  match resp with
  | InvokeReturns (Some data) false =>
      let aiResponse :=
        {| id := toString (date_now c + 1);
           content := if is_null currentImage then message data
                      else analysis data;
           sender := assistant;
           timestamp := new_date c;
           imageUrl := None;
           imageName := None |} in
      setMessages (fun prev => prev ++ [aiResponse]) s
  | _ => setMessages (fun prev => prev ++ [errorMessage c]) s
  end.

(** Which function of the voice hook [handleVoiceInput] awaits. *)
Inductive VoiceStatus : Type :=
| AwaitStopRecording
| AwaitStartRecording.

(** [handleVoiceInput], up to its [await]. *)
Definition handleVoiceInput (r : Render) : VoiceStatus :=
  if VoiceRecording.isRecording (r_voice r) then AwaitStopRecording
  else AwaitStartRecording.

(** The branch [else if (error)] of [handleVoiceInput]; [error] is the
    one of the render the handler closed over. *)
Definition report_failure (r : Render) : list Output :=
  match VoiceRecording.error (r_voice r) with
  | Some e => if JS.truthy e then [Toast "Voice recording failed" e true]
              else []
  | None => []
  end.

(** [handleVoiceInput] after [stopRecording] resolved. *)
Definition handleVoiceInput_stopped (r : Render)
  (transcribedText : option string) (s : State) : State * list Output :=
  match transcribedText with
  | Some spoken =>
      if JS.truthy spoken then
        (setInputValue spoken s,
         [Toast "Voice recorded" "Text has been transcribed successfully"
            false])
      else (s, report_failure r)
  | None => (s, report_failure r)
  end.

(** [startNewChat] *)
Definition startNewChat (s : State) : State :=
  setSelectedImage None (setMessages (fun _ => []) s).

(** [handleImageSelect] *)
Definition handleImageSelect (imageUrl fileName : string) (s : State)
  : State :=
  setSelectedImage (Some {| url := imageUrl; name := fileName |}) s.

End ChatInterface.

(** ** components/ImageUpload.tsx *)

Module ImageUpload.

(** The selected file, as far as the component reads it. *)
Record File : Type := {
  file_name : string;
  file_type : string;
  file_size : N
}.

(** The signed-in user of [useAuth]. *)
Record User : Type := { user_id : string }.

(** The component's cells and the value of the file input behind
    [fileInputRef] ([None] when the ref is null). *)
Record State : Type := {
  isUploading : bool;
  previewImage : option string;
  input_value : option string
}.

Inductive Output : Type :=
| Toast (title description : string) (destructive : bool)
| ReadAsDataURL (file : File)
| Upload (bucket path : string) (file : File)
| GetPublicUrl (bucket path : string)
| OnImageSelect (imageUrl fileName : string).

Definition setIsUploading (b : bool) (s : State) : State :=
  {| isUploading := b; previewImage := previewImage s;
     input_value := input_value s |}.
Definition setPreviewImage (p : option string) (s : State) : State :=
  {| isUploading := isUploading s; previewImage := p;
     input_value := input_value s |}.

(** How far [handleFileSelect] got: it returned, or it awaits the upload
    of [file] under [fileName]. *)
Inductive SelectStatus : Type :=
| SelectReturned
| AwaitUpload (fileName : string) (file : File).

(** [5 * 1024 * 1024] *)
Definition max_size : N := 5 * 1024 * 1024.

(** [handleFileSelect], up to its [return] or its [await]; [file] is
    [event.target.files?.[0]] and [now] is [Date.now()]. *)
Definition handleFileSelect (file : option File) (user : option User)
  (now : N) (s : State) : State * list Output * SelectStatus :=
  match file, user with
  | Some f, Some u =>
      if negb (String.prefix "image/" (file_type f)) then
        (s, [Toast "Invalid file type" "Please select an image file" true],
         SelectReturned)
      else if (max_size <? file_size f)%N then
        (s, [Toast "File too large"
               "Please select an image smaller than 5MB" true],
         SelectReturned)
      else
        let fileName :=
          (user_id u ++ "/" ++ ChatInterface.toString now ++ "-"
           ++ file_name f)%string in
        (setIsUploading true s,
         [ReadAsDataURL f; Upload "chat-images" fileName f],
         AwaitUpload fileName f)
  | _, _ => (s, [], SelectReturned)
  end.

(** What the upload gives: a rejection, or an object whose [error] is set
    or not; [publicUrl] is what [getPublicUrl] then returns. *)
Inductive UploadOutcome : Type :=
| UploadRejects
| UploadReturns (has_error : bool) (publicUrl : string).

Definition upload_failed (s : State) : State * list Output :=
  (setIsUploading false (setPreviewImage None s),
   [Toast "Upload failed" "Failed to upload image. Please try again." true]).

(** [handleFileSelect] after the upload was answered, with its [catch]
    and [finally]. *)
Definition handleFileSelect_uploaded (fileName : string) (file : File)
  (out : UploadOutcome) (s : State) : State * list Output :=
  match out with
  | UploadReturns false publicUrl =>
      (setIsUploading false s,
       [GetPublicUrl "chat-images" fileName;
        OnImageSelect publicUrl (file_name file);
        Toast "Image uploaded" "Your image has been uploaded successfully"
          false])
  | _ => upload_failed s
  end.

(** [reader.onload] *)
Definition reader_onload (result : option string) (s : State) : State :=
  setPreviewImage result s.

(** [clearPreview] *)
Definition clearPreview (s : State) : State :=
  {| isUploading := isUploading s; previewImage := None;
     input_value := match input_value s with
                    | Some _ => Some ""
                    | None => None
                    end |}.

End ImageUpload.

(** ** Properties *)

Import VoiceRecording.
Import App.

(** *** Reading a log *)

(** Effects of the device path: acquisition, recorder, reader, gateway. *)
Definition is_device_effect (e : Effect) : bool :=
  match e with
  | GetUserMedia _ | NewMediaRecorder _ | RecorderStart _ | RecorderStop
  | TrackStop _ | NewBlob _ | ReadAsDataURL | Invoke _ _ => true
  | _ => false
  end.

Definition no_device_effect (l : list Effect) : bool :=
  forallb (fun e => negb (is_device_effect e)) l.

(** The tracks stopped by a log, one entry per call of [track.stop()]. *)
Fixpoint track_stops (l : list Effect) : list MediaStreamTrack :=
  match l with
  | [] => []
  | TrackStop t :: rest => t :: track_stops rest
  | _ :: rest => track_stops rest
  end.

Definition sets_isProcessing (e : Effect) : bool :=
  match e with SetIsProcessing _ => true | _ => false end.

(** *** Reading a state *)

(** The tracks of the stream of the recorder in [mediaRecorder.current]. *)
Definition tracks_of (s : Store) : list MediaStreamTrack :=
  match mediaRecorder (voice s) with
  | Some r => stream r
  | None => []
  end.

(** A stopped recording whose transcription has not been resolved. *)
Definition is_processing_task (t : Task) : bool :=
  match t with Reading | Transcribing => true | _ => false end.

Definition is_settling (t : Task) : bool :=
  match t with Settling _ => true | _ => false end.

(** No recorder, nothing being processed, only settle timers pending and
    no device effect so far. *)
Definition browser_only (w : WebSpeech.Window) (s : Sys) : Prop :=
  window (store s) = w /\
  mediaRecorder (voice (store s)) = None /\
  st_isProcessing (voice (store s)) = false /\
  forallb is_settling (pending s) = true /\
  no_device_effect (history s) = true.

(** If [isProcessing] is set, a stopped recording is being processed. *)
Definition processing_accounted (s : Sys) : Prop :=
  st_isProcessing (voice (store s)) = true ->
  existsb is_processing_task (pending s) = true.

(** The adapter's error is null or a non-empty string. *)
Definition speech_error_truthy (s : Sys) : Prop :=
  WebSpeech.st_error (speech (store s)) <> Some "".

(** *** One stop of the device path *)

(** What the platform does during one stop of the device path. *)
Record DeviceOutcome : Type := {
  blob_throws : bool;
  reader_result : option string;
  gateway : GatewayResponse
}.

(** One [stopRecording] of the device path from the call to the
    resolution of its promise: the call, the recorder's stop event, the
    reader's load end and the gateway's answer, one after the other. *)
Definition device_stop (cl : Closure) (o : DeviceOutcome)
  : Run Store Progress :=
  st <- stopRecording cl ;;
  match st with
  | Resolved v => ret (Settled v)
  | AwaitSettle => ret Pending
  | AwaitRecorderStop =>
      p <- onstop (blob_throws o) ;;
      match p with
      | Settled v => ret (Settled v)
      | Pending =>
          q <- onloadend (reader_result o) ;;
          match q with
          | Settled v => ret (Settled v)
          | Pending => onloadend_answered (gateway o)
          end
      end
  end.

(** *** Constants of the source *)

(** The engine as [startListening] configures it. *)
Definition configured_engine : WebSpeech.Engine :=
  {| WebSpeech.continuous := false; WebSpeech.interimResults := true;
     WebSpeech.lang := "en-US"; WebSpeech.maxAlternatives := 1;
     WebSpeech.has_onstart := true; WebSpeech.has_onresult := true;
     WebSpeech.has_onerror := true; WebSpeech.has_onend := true |}.

Definition unsupported_message : string :=
  "Speech recognition is not supported in this browser".

Definition start_failed_message : string :=
  "Failed to start recording. Please check microphone permissions.".

(** *** Sample windows, platforms and sessions *)

(** A window with the webkit-prefixed recognition constructor, and one
    without any. *)
Definition window_with_recognition : WebSpeech.Window :=
  {| WebSpeech.has_SpeechRecognition := false;
     WebSpeech.has_webkitSpeechRecognition := true |}.

Definition window_without_recognition : WebSpeech.Window :=
  {| WebSpeech.has_SpeechRecognition := false;
     WebSpeech.has_webkitSpeechRecognition := false |}.

Definition heard (t : string) (final : bool) : WebSpeech.SpeechResult :=
  {| WebSpeech.alt_transcript := t;
     WebSpeech.alt_confidence := Some (9 # 10)%Q;
     WebSpeech.isFinal := final |}.

(** A platform on which the recorder works. *)
Definition working_recorder : RecorderPlatform :=
  {| opus_supported := true; constructor_throws := false;
     start_throws := false |}.

(** The gateway transcribes the recording. *)
Definition transcribed : DeviceOutcome :=
  {| blob_throws := false;
     reader_result := Some "data:audio/webm;base64,AAAA";
     gateway := InvokeReturns (Some {| text := Some "transcribed" |}) false |}.

(** The state after the events [evs], from a fresh component. *)
Definition state_after (w : WebSpeech.Window) (evs : list Event) : Sys :=
  match run evs (boot w) with
  | Some s => s
  | None => boot w
  end.

(** An in-browser session that is listening, nothing heard yet. *)
Definition session_listening : list Event :=
  [CallStartRecording WebSpeech.EngineOk; EngineStarted].

(** An in-browser session that heard a final result. *)
Definition session_heard : list Event :=
  session_listening ++ [EngineResult [heard "hello" true]].

(** An in-browser session whose engine ended on its own. *)
Definition session_ended_by_engine : list Event :=
  [CallStartRecording WebSpeech.EngineOk; EngineStarted; EngineEnded].

(** The engine ended on its own, then [stopRecording] was called. *)
Definition session_stopped_after_end : list Event :=
  session_ended_by_engine ++ [CallStopRecording].

(** [stopRecording] is called while listening; the final result lands
    during the settle delay, then the engine ends. *)
Definition session_late_final : list Event :=
  session_listening ++
  [CallStopRecording; EngineResult [heard "hello world" true]; EngineEnded].

(** [stopRecording] is called while listening, after the interim result
    [hello]; the final result [hello world] lands during the settle
    delay. *)
Definition session_interim_then_final : list Event :=
  session_listening ++
  [EngineResult [heard "hello" false]; CallStopRecording;
   EngineResult [heard "hello world" true]; EngineEnded].

(** A device session: nothing can be recognised in the browser, the
    device is granted with two tracks and one chunk has been recorded. *)
Definition session_recording : list Event :=
  [CallStartRecording WebSpeech.EngineOk;
   UserMediaAnswered 0 (Granted [1; 2]) working_recorder;
   DataAvailable 5].

(** The recording was stopped and is being transcribed. *)
Definition session_transcribing : list Event :=
  session_recording ++
  [CallStopRecording; RecorderStopped 0 false;
   ReaderLoaded 0 (Some "data:audio/webm;base64,AAAA")].

(** *** Further vocabulary *)

(** The engine in [recognition.current], if any, is the configured one. *)
Definition engine_configured (s : Sys) : Prop :=
  WebSpeech.recognition (speech (store s)) = None \/
  WebSpeech.recognition (speech (store s)) = Some configured_engine.

(** While the [isRecording] cell is set, a recorder with its
    [ondataavailable] handler is in place. *)
Definition recorder_in_place (s : Sys) : Prop :=
  st_isRecording (voice (store s)) = true ->
  recorder_has has_ondataavailable s = true.

Definition is_resolve (e : Effect) : bool :=
  match e with Resolve _ => true | _ => false end.

(** How many promises a log resolved. *)
Definition resolved (l : list Effect) : nat := length (filter is_resolve l).

(** How many of the events are calls of [stopRecording]. *)
Fixpoint stop_calls (evs : list Event) : nat :=
  match evs with
  | [] => 0
  | CallStopRecording :: rest => S (stop_calls rest)
  | _ :: rest => stop_calls rest
  end.

(** The chunks that [ondataavailable] keeps. *)
Definition kept_chunks (data : list Blob) : list Blob :=
  filter (Nat.ltb 0) data.

Fixpoint no_comma (s : string) : bool :=
  match s with
  | EmptyString => true
  | String c rest => negb (Ascii.eqb c ","%char) && no_comma rest
  end.

(** The string is empty or starts with a character that is no white
    space; likewise for its end. *)
Definition starts_clean (s : string) : bool :=
  match s with
  | EmptyString => true
  | String c _ => negb (JS.is_white_space c)
  end.

Fixpoint ends_clean (s : string) : bool :=
  match s with
  | EmptyString => true
  | String c EmptyString => negb (JS.is_white_space c)
  | String _ rest => ends_clean rest
  end.

(** An engine reports an error before its start event arrives. *)
Definition session_error_then_started : list Event :=
  [CallStartRecording WebSpeech.EngineOk; EngineError "network";
   EngineStarted].

(** Samples for the chat composer and the image upload. *)
Definition idle_voice : VoiceRecording.Hook :=
  render (initial_store window_with_recognition).

Definition blank_render : ChatInterface.Render :=
  {| ChatInterface.r_inputValue := "   ";
     ChatInterface.r_selectedImage := None;
     ChatInterface.r_voice := idle_voice |}.

Definition hello_render : ChatInterface.Render :=
  {| ChatInterface.r_inputValue := " hello ";
     ChatInterface.r_selectedImage := None;
     ChatInterface.r_voice := idle_voice |}.

Definition noon : ChatInterface.Clock :=
  {| ChatInterface.date_now := 1000; ChatInterface.new_date := 1000 |}.

Definition photo : ImageUpload.File :=
  {| ImageUpload.file_name := "cat.png";
     ImageUpload.file_type := "image/png";
     ImageUpload.file_size := 5 * 1024 * 1024 |}.

Definition alice : ImageUpload.User := {| ImageUpload.user_id := "alice" |}.

Definition upload_idle : ImageUpload.State :=
  {| ImageUpload.isUploading := false; ImageUpload.previewImage := None;
     ImageUpload.input_value := Some "cat.png" |}.

Definition uploads (o : ImageUpload.Output) : bool :=
  match o with
  | ImageUpload.Upload _ _ _ | ImageUpload.ReadAsDataURL _ => true
  | _ => false
  end.

Definition is_upload_toast (o : ImageUpload.Output) : bool :=
  match o with ImageUpload.Toast _ _ _ => true | _ => false end.


(** [stopRecording] is called while listening; the engine reports an
    error during the settle delay. *)
Definition session_late_error : list Event :=
  session_listening ++ [CallStopRecording; EngineError "network"].


Definition is_image_select (o : ImageUpload.Output) : bool :=
  match o with ImageUpload.OnImageSelect _ _ => true | _ => false end.

(** *** Lists and strings *)

Lemma forallb_nth_error {A : Type} (p : A -> bool) (l : list A) n x :
  forallb p l = true -> nth_error l n = Some x -> p x = true.
Proof.
  revert n; induction l as [|a l IH]; intros [|n] H E; simpl in *;
    try discriminate.
  - injection E as <-. now apply andb_prop in H.
  - apply andb_prop in H. now apply (IH n).
Qed.

Lemma forallb_remove_nth {A : Type} (p : A -> bool) (l : list A) n :
  forallb p l = true -> forallb p (remove_nth n l) = true.
Proof.
  revert n; induction l as [|a l IH]; intros [|n] H; simpl in *; auto.
  - now apply andb_prop in H.
  - apply andb_prop in H as [Ha Hl]. now rewrite Ha, IH.
Qed.

Lemma existsb_remove_nth {A : Type} (p : A -> bool) (l : list A) n x :
  nth_error l n = Some x -> p x = false ->
  existsb p (remove_nth n l) = existsb p l.
Proof.
  revert n; induction l as [|a l IH]; intros [|n] E Hx; simpl in *;
    try discriminate.
  - injection E as ->. now rewrite Hx.
  - now rewrite (IH n).
Qed.

Lemma track_stops_app (l1 l2 : list Effect) :
  track_stops (l1 ++ l2) = track_stops l1 ++ track_stops l2.
Proof.
  induction l1 as [|e l1 IH]; [reflexivity|].
  destruct e; simpl; rewrite IH; reflexivity.
Qed.

Lemma track_stops_map (l : list MediaStreamTrack) :
  track_stops (map TrackStop l) = l.
Proof. induction l as [|t l IH]; simpl; congruence. Qed.

Lemma truthy_trim (t : string) :
  JS.truthy t && JS.truthy (JS.trim t) = JS.truthy (JS.trim t).
Proof. destruct t; reflexivity. Qed.

Lemma truthy_nonempty (t : string) : JS.truthy t = true <-> t <> "".
Proof. destruct t; simpl; split; congruence. Qed.

(** *** Runs of the component *)

(** *** The window never changes, and a supported window keeps the
    component on the in-browser path *)
Lemma run_preserves (P : Sys -> Prop) :
  (forall ev s s', P s -> step ev s = Some s' -> P s') ->
  forall evs s s', P s -> run evs s = Some s' -> P s'.
Proof.
  intros Hstep evs; induction evs as [|ev evs IH]; intros s s' HP Hrun;
    simpl in Hrun.
  - now injection Hrun as <-.
  - destruct (step ev s) as [s1|] eqn:E; [|discriminate].
    eapply IH; [|exact Hrun]. eapply Hstep; eauto.
Qed.

Ltac pending_task Hq Hs :=
  match type of Hs with
  | context [nth_error ?l ?n] =>
      let E := fresh "E" in
      destruct (nth_error l n) as [[]|] eqn:E; try discriminate Hs;
      try (apply (forallb_nth_error _ _ _ _ Hq) in E; discriminate E)
  end.

Ltac close_case Hq Hh Hrest :=
  unfold browser_only, no_device_effect; cbn;
  repeat split; auto;
  rewrite ?forallb_app, ?Hq, ?Hh, ?Hrest; reflexivity.

Ltac resumed Hs :=
  match type of Hs with
  | context [nth_error ?l ?n] =>
      let E := fresh "E" in
      destruct (nth_error l n) as [[]|] eqn:E; try discriminate Hs
  end.

(** *** What each handler does *)

Lemma stop_tracks_run (l : list MediaStreamTrack) (s : Store) :
  stop_tracks l s = (Normal tt, s, map TrackStop l).
Proof.
  induction l as [|t l IH]; [reflexivity|].
  simpl. unfold bind, emit. rewrite IH. reflexivity.
Qed.

Lemma onstop_run (b : bool) (s : Store) :
  completion (onstop b s) = Normal (if b then Settled None else Pending) /\
  (exists pre,
     effects_of (onstop b s) = pre ++ map TrackStop (tracks_of s) /\
     track_stops pre = []) /\
  st_isProcessing (voice (store_of (onstop b s))) = negb b /\
  mediaRecorder (voice (store_of (onstop b s))) = mediaRecorder (voice s).
Proof.
  unfold onstop, tracks_of. destruct b.
  - cbn. unfold bind. rewrite stop_tracks_run. cbn. rewrite app_nil_r.
    split; [reflexivity|]. split; [|split; reflexivity].
    exists [SetIsRecording false; SetIsProcessing true;
            SetError (Some "Failed to process recording.");
            SetIsProcessing false; Resolve None].
    split; reflexivity.
  - cbn. unfold bind. rewrite stop_tracks_run. cbn. rewrite app_nil_r.
    split; [reflexivity|]. split; [|split; reflexivity].
    exists [SetIsRecording false; SetIsProcessing true;
            NewBlob (audioChunks (voice s)); ReadAsDataURL].
    split; reflexivity.
Qed.

Lemma processing_failed_run (s : Store) :
  completion (processing_failed s) = Normal (Settled None) /\
  track_stops (effects_of (processing_failed s)) = [] /\
  st_isProcessing (voice (store_of (processing_failed s))) = false.
Proof. repeat split. Qed.

Lemma onloadend_run (result : option string) (s : Store) :
  (completion (onloadend result s) = Normal Pending /\
   st_isProcessing (voice (store_of (onloadend result s))) =
     st_isProcessing (voice s) \/
   completion (onloadend result s) = Normal (Settled None) /\
   st_isProcessing (voice (store_of (onloadend result s))) = false) /\
  track_stops (effects_of (onloadend result s)) = [].
Proof.
  destruct result as [url|]; cbn; split; auto.
Qed.

Lemma onloadend_answered_run (resp : GatewayResponse) (s : Store) :
  (exists v, completion (onloadend_answered resp s) = Normal (Settled v)) /\
  st_isProcessing (voice (store_of (onloadend_answered resp s))) = false /\
  track_stops (effects_of (onloadend_answered resp s)) = [].
Proof.
  destruct resp as [|[d|] []]; cbn; repeat split; eexists; reflexivity.
Qed.

Lemma stopRecording_device_run (cl : Closure) (s : Store) (r : MediaRecorder) :
  c_isRecording cl = true ->
  WebSpeech.isListening (webSpeech cl) = false ->
  mediaRecorder (voice s) = Some r ->
  stopRecording cl s =
    (Normal AwaitRecorderStop,
     with_voice (with_mediaRecorder (Some (set_onstop r)) (voice s)) s,
     [RecorderStop]).
Proof.
  intros Hrec Hlis Hr. unfold stopRecording. rewrite Hrec, Hlis; simpl.
  repeat (unfold bind, read, assign; simpl; rewrite ?Hr).
  reflexivity.
Qed.

Lemma device_stop_run (cl : Closure) (o : DeviceOutcome) (s : Store)
  (r : MediaRecorder) :
  c_isRecording cl = true ->
  WebSpeech.isListening (webSpeech cl) = false ->
  mediaRecorder (voice s) = Some r ->
  (exists v, completion (device_stop cl o s) = Normal (Settled v)) /\
  track_stops (effects_of (device_stop cl o s)) = stream r /\
  st_isProcessing (voice (store_of (device_stop cl o s))) = false.
Proof.
  intros Hrec Hlis Hr.
  remember (device_stop cl o s) as res eqn:E.
  unfold device_stop, bind in E.
  rewrite (stopRecording_device_run cl s r Hrec Hlis Hr) in E.
  set (s1 := with_voice _ s) in E.
  assert (Ht : tracks_of s1 = stream r) by reflexivity.
  destruct (onstop_run (blob_throws o) s1) as (Hc & (pre & He & Hpre) & Hp & _).
  destruct (onstop (blob_throws o) s1) as [[c1 s2] l1].
  unfold completion, effects_of, store_of in Hc, He, Hp; simpl in Hc, He, Hp.
  subst c1 l1. rewrite Ht in E.
  destruct (blob_throws o).
  - subst res. cbn.
    rewrite app_nil_r, track_stops_app, Hpre, track_stops_map.
    split; [eexists; reflexivity|]. split; [reflexivity | exact Hp].
  - destruct (onloadend_run (reader_result o) s2) as (Hq & Hl).
    destruct (onloadend (reader_result o) s2) as [[c2 s3] l2].
    unfold completion, effects_of, store_of in Hq, Hl; simpl in Hq, Hl.
    destruct Hq as [(-> & _) | (-> & Hq)].
    + destruct (onloadend_answered_run (gateway o) s3) as ((v & Hv) & Hf & Hg).
      destruct (onloadend_answered (gateway o) s3) as [[c3 s4] l3].
      unfold completion, effects_of, store_of in Hv, Hf, Hg;
        simpl in Hv, Hf, Hg. subst c3 res.
      cbn. rewrite !track_stops_app, Hpre, track_stops_map, Hl, Hg.
      split; [eexists; reflexivity|]. split; [|exact Hf].
      simpl. now rewrite app_nil_r.
    + subst res. cbn. rewrite !track_stops_app, Hpre, track_stops_map, Hl.
      split; [eexists; reflexivity|]. split; [|exact Hq].
      simpl. now rewrite app_nil_r.
Qed.

Lemma in_speech_keeps_voice {A : Type} (m : Run WebSpeech.State A) s :
  voice (store_of (in_speech m s)) = voice s.
Proof.
  unfold in_speech, lift, store_of.
  destruct (m (speech s)) as [[c t] l]. reflexivity.
Qed.

Lemma in_speech_speech {A : Type} (m : Run WebSpeech.State A) s :
  speech (store_of (in_speech m s)) = store_of (m (speech s)).
Proof.
  unfold in_speech, lift, store_of.
  destruct (m (speech s)) as [[c t] l]. reflexivity.
Qed.


Lemma startRecording_keeps_isProcessing cl eng s :
  st_isProcessing (voice (store_of (startRecording cl eng s))) =
    st_isProcessing (voice s) /\
  existsb sets_isProcessing (effects_of (startRecording cl eng s)) = false.
Proof.
  unfold startRecording.
  destruct (WebSpeech.isSupported (webSpeech cl)); [destruct eng|];
    split; reflexivity.
Qed.

Lemma stopRecording_keeps_isProcessing cl s :
  st_isProcessing (voice (store_of (stopRecording cl s))) =
    st_isProcessing (voice s) /\
  existsb sets_isProcessing (effects_of (stopRecording cl s)) = false.
Proof.
  unfold stopRecording.
  destruct (c_isRecording cl); simpl; [|split; reflexivity].
  destruct (WebSpeech.isListening (webSpeech cl)); simpl.
  - unfold in_speech, lift, WebSpeech.stopListening, bind, read; simpl.
    destruct (WebSpeech.recognition (speech s)); split; reflexivity.
  - destruct (mediaRecorder (voice s)) as [r|] eqn:Hr;
      repeat (unfold bind, read, assign; simpl; rewrite ?Hr);
      split; reflexivity.
Qed.

Lemma stopRecording_settled_keeps_isProcessing cl s :
  st_isProcessing (voice (store_of (stopRecording_settled cl s))) =
    st_isProcessing (voice s) /\
  existsb sets_isProcessing (effects_of (stopRecording_settled cl s)) = false.
Proof.
  unfold stopRecording_settled.
  destruct (JS.truthy _ && JS.truthy _); [split; reflexivity|].
  destruct (WebSpeech.error (webSpeech cl)) as [e|];
    [destruct (JS.truthy e)|]; split; reflexivity.
Qed.

Lemma startRecording_acquired_keeps_isProcessing acq p s :
  st_isProcessing (voice (store_of (startRecording_acquired acq p s))) =
    st_isProcessing (voice s).
Proof.
  unfold startRecording_acquired, new_MediaRecorder, recorder_start.
  destruct acq; [|reflexivity].
  destruct (constructor_throws p); [reflexivity|].
  destruct (start_throws p); reflexivity.
Qed.

Lemma ondataavailable_keeps_isProcessing data s :
  st_isProcessing (voice (store_of (ondataavailable data s))) =
    st_isProcessing (voice s).
Proof. unfold ondataavailable. destruct (Nat.ltb 0 data); reflexivity. Qed.

Lemma stopRecording_keeps_speech cl s :
  speech (store_of (stopRecording cl s)) = speech s.
Proof.
  unfold stopRecording.
  destruct (c_isRecording cl); simpl; [|reflexivity].
  destruct (WebSpeech.isListening (webSpeech cl)); simpl.
  - unfold in_speech, lift, WebSpeech.stopListening, bind, read; simpl.
    destruct (WebSpeech.recognition (speech s)); destruct (speech s);
      reflexivity.
  - destruct (mediaRecorder (voice s)) as [r|] eqn:Hr;
      repeat (unfold bind, read, assign; simpl; rewrite ?Hr); reflexivity.
Qed.

Lemma stopRecording_settled_keeps_speech cl s :
  speech (store_of (stopRecording_settled cl s)) = speech s.
Proof.
  unfold stopRecording_settled.
  destruct (JS.truthy _ && JS.truthy _); [reflexivity|].
  destruct (WebSpeech.error (webSpeech cl)) as [e|];
    [destruct (JS.truthy e)|]; reflexivity.
Qed.

Lemma startRecording_acquired_keeps_speech acq p s :
  speech (store_of (startRecording_acquired acq p s)) = speech s.
Proof.
  unfold startRecording_acquired, new_MediaRecorder, recorder_start.
  destruct acq; [|reflexivity].
  destruct (constructor_throws p); [reflexivity|].
  destruct (start_throws p); reflexivity.
Qed.

Lemma onstop_keeps_speech b s : speech (store_of (onstop b s)) = speech s.
Proof.
  unfold onstop.
  destruct b; cbn; unfold bind; rewrite stop_tracks_run; reflexivity.
Qed.

Lemma onloadend_keeps_speech result s :
  speech (store_of (onloadend result s)) = speech s.
Proof. destruct result; reflexivity. Qed.

Lemma onloadend_answered_keeps_speech resp s :
  speech (store_of (onloadend_answered resp s)) = speech s.
Proof. destruct resp as [|[d|] []]; reflexivity. Qed.

Lemma ondataavailable_keeps_speech data s :
  speech (store_of (ondataavailable data s)) = speech s.
Proof. unfold ondataavailable. destruct (Nat.ltb 0 data); reflexivity. Qed.






(** *** Invariants of the component *)

Lemma step_browser_only w ev s s' :
  WebSpeech.probe w = true ->
  browser_only w s -> step ev s = Some s' -> browser_only w s'.
Proof.
  intros Hw (Hwin & Hr & Hp & Hq & Hh) Hs.
  destruct s as [st pend hist]; simpl in *.
  assert (Hrest : forall n, forallb is_settling (remove_nth n pend) = true)
    by (intro; now apply forallb_remove_nth).
  unfold no_device_effect in *.
  destruct ev; simpl in Hs.
  - injection Hs as <-. unfold browser_only, commit, startRecording; simpl.
    rewrite Hwin, Hw. destruct eng; close_case Hq Hh Hrest.
  - injection Hs as <-. unfold browser_only, commit, stopRecording; simpl.
    destruct (st_isRecording (voice st)); simpl.
    + destruct (WebSpeech.st_isListening (speech st)); simpl.
      * unfold in_speech, lift, WebSpeech.stopListening, bind, read; simpl.
        destruct (WebSpeech.recognition (speech st)); close_case Hq Hh Hrest.
      * cbn. rewrite Hr. close_case Hq Hh Hrest.
    + close_case Hq Hh Hrest.
  - pending_task Hq Hs.
  - pending_task Hq Hs. injection Hs as <-.
    unfold browser_only, commit, stopRecording_settled; simpl.
    destruct (JS.truthy _ && JS.truthy _); [close_case Hq Hh Hrest|].
    destruct (WebSpeech.error (webSpeech cl)) as [e|]; [destruct (JS.truthy e)|];
      close_case Hq Hh Hrest.
  - pending_task Hq Hs.
  - pending_task Hq Hs.
  - pending_task Hq Hs.
  - unfold engine_has in Hs; simpl in Hs.
    destruct (WebSpeech.recognition (speech st)) as [e|]; [|discriminate].
    destruct (WebSpeech.has_onstart e); [|discriminate].
    injection Hs as <-. close_case Hq Hh Hrest.
  - unfold engine_has in Hs; simpl in Hs.
    destruct (WebSpeech.recognition (speech st)) as [e|]; [|discriminate].
    destruct (WebSpeech.has_onresult e); [|discriminate].
    injection Hs as <-. unfold commit, in_speech, lift, WebSpeech.onresult; simpl.
    destruct (JS.last_elem results) as [r|]; [destruct (WebSpeech.isFinal r)|];
      close_case Hq Hh Hrest.
  - unfold engine_has in Hs; simpl in Hs.
    destruct (WebSpeech.recognition (speech st)) as [e|]; [|discriminate].
    destruct (WebSpeech.has_onerror e); [|discriminate].
    injection Hs as <-. close_case Hq Hh Hrest.
  - unfold engine_has in Hs; simpl in Hs.
    destruct (WebSpeech.recognition (speech st)) as [e|]; [|discriminate].
    destruct (WebSpeech.has_onend e); [|discriminate].
    injection Hs as <-. close_case Hq Hh Hrest.
  - unfold recorder_has in Hs; simpl in Hs. rewrite Hr in Hs. discriminate.
Qed.

Lemma reachable_browser_only w s :
  WebSpeech.probe w = true -> reachable w s -> browser_only w s.
Proof.
  intros Hw [evs Hrun].
  apply (run_preserves (browser_only w)) with (evs := evs) (s := boot w);
    auto.
  - intros ev s1 s2. now apply step_browser_only.
  - repeat split.
Qed.

Lemma step_processing_accounted ev s s' :
  processing_accounted s -> step ev s = Some s' -> processing_accounted s'.
Proof.
  unfold processing_accounted. intros HP Hs.
  destruct s as [st pend hist]; simpl in *.
  destruct ev as [eng| |n acq p|n|n b|n result|n resp| |results|code| |data];
    simpl in Hs.
  - injection Hs as <-. unfold commit; simpl.
    rewrite (proj1 (startRecording_keeps_isProcessing _ _ _)), existsb_app.
    intros H. now rewrite HP.
  - injection Hs as <-. unfold commit; simpl.
    rewrite (proj1 (stopRecording_keeps_isProcessing _ _)), existsb_app.
    intros H. now rewrite HP.
  - resumed Hs. injection Hs as <-. unfold commit; simpl.
    rewrite startRecording_acquired_keeps_isProcessing, existsb_app.
    intros H. rewrite (existsb_remove_nth _ _ _ _ E eq_refl). now rewrite HP.
  - resumed Hs. injection Hs as <-. unfold commit; simpl.
    rewrite (proj1 (stopRecording_settled_keeps_isProcessing _ _)),
      existsb_app.
    intros H. rewrite (existsb_remove_nth _ _ _ _ E eq_refl). now rewrite HP.
  - resumed Hs. destruct (recorder_has has_onstop _); [|discriminate].
    injection Hs as <-. unfold commit; simpl.
    destruct (onstop_run b st) as (Hc & _ & Hp & _).
    rewrite Hc, Hp, existsb_app.
    destruct b; simpl; [discriminate|].
    intros _. apply orb_true_r.
  - resumed Hs. injection Hs as <-. unfold commit; simpl.
    destruct (onloadend_run result st) as ([(Hc & Hp)|(Hc & Hp)] & _);
      rewrite Hc, Hp, existsb_app; simpl; [|discriminate].
    intros _. apply orb_true_r.
  - resumed Hs. injection Hs as <-. unfold commit; simpl.
    destruct (onloadend_answered_run resp st) as (_ & Hp & _).
    rewrite Hp. discriminate.
  - destruct (engine_has _ _); [|discriminate]. injection Hs as <-.
    unfold commit; cbn [store pending].
    rewrite in_speech_keeps_voice, existsb_app.
    intros H. now rewrite HP.
  - destruct (engine_has _ _); [|discriminate]. injection Hs as <-.
    unfold commit; cbn [store pending].
    rewrite in_speech_keeps_voice, existsb_app.
    intros H. now rewrite HP.
  - destruct (engine_has _ _); [|discriminate]. injection Hs as <-.
    unfold commit; cbn [store pending].
    rewrite in_speech_keeps_voice, existsb_app.
    intros H. now rewrite HP.
  - destruct (engine_has _ _); [|discriminate]. injection Hs as <-.
    unfold commit; cbn [store pending].
    rewrite in_speech_keeps_voice, existsb_app.
    intros H. now rewrite HP.
  - destruct (recorder_has _ _); [|discriminate]. injection Hs as <-.
    unfold commit; cbn [store pending].
    rewrite ondataavailable_keeps_isProcessing, existsb_app.
    intros H. now rewrite HP.
Qed.

Lemma reachable_processing_accounted w s :
  reachable w s -> processing_accounted s.
Proof.
  intros [evs Hrun].
  apply (run_preserves processing_accounted) with (evs := evs) (s := boot w);
    auto.
  - intros ev s1 s2. apply step_processing_accounted.
  - intros H. discriminate H.
Qed.

Lemma step_speech_error_truthy ev s s' :
  speech_error_truthy s -> step ev s = Some s' -> speech_error_truthy s'.
Proof.
  unfold speech_error_truthy. intros HP Hs.
  destruct s as [st pend hist]; simpl in *.
  destruct ev as [eng| |n acq p|n|n b|n result|n resp| |results|code| |data];
    simpl in Hs.
  - injection Hs as <-. unfold commit, startRecording; simpl.
    destruct (WebSpeech.probe (window st)); [destruct eng|]; cbn;
      congruence.
  - injection Hs as <-. unfold commit; cbn [store].
    now rewrite stopRecording_keeps_speech.
  - resumed Hs. injection Hs as <-. unfold commit; cbn [store].
    now rewrite startRecording_acquired_keeps_speech.
  - resumed Hs. injection Hs as <-. unfold commit; cbn [store].
    now rewrite stopRecording_settled_keeps_speech.
  - resumed Hs. destruct (recorder_has has_onstop _); [|discriminate].
    injection Hs as <-. unfold commit; cbn [store].
    now rewrite onstop_keeps_speech.
  - resumed Hs. injection Hs as <-. unfold commit; cbn [store].
    now rewrite onloadend_keeps_speech.
  - resumed Hs. injection Hs as <-. unfold commit; cbn [store].
    now rewrite onloadend_answered_keeps_speech.
  - destruct (engine_has _ _); [|discriminate]. injection Hs as <-.
    unfold commit; cbn [store]. now rewrite in_speech_speech.
  - destruct (engine_has _ _); [|discriminate]. injection Hs as <-.
    unfold commit; cbn [store]. rewrite in_speech_speech.
    unfold WebSpeech.onresult.
    destruct (JS.last_elem results) as [r|];
      [destruct (WebSpeech.isFinal r)|]; exact HP.
  - destruct (engine_has _ _); [|discriminate]. injection Hs as <-.
    unfold commit; cbn [store]. rewrite in_speech_speech.
    cbn. congruence.
  - destruct (engine_has _ _); [|discriminate]. injection Hs as <-.
    unfold commit; cbn [store]. now rewrite in_speech_speech.
  - destruct (recorder_has _ _); [|discriminate]. injection Hs as <-.
    unfold commit; cbn [store]. now rewrite ondataavailable_keeps_speech.
Qed.

(** Whenever the adapter reports an error, the error is a non-empty
    string, so it is truthy for [stopRecording]. *)
Lemma reachable_speech_error_truthy w s :
  reachable w s ->
  forall e, WebSpeech.error (webSpeech (closure_of (store s))) = Some e ->
            JS.truthy e = true.
Proof.
  intros [evs Hrun] e He.
  assert (H : speech_error_truthy s).
  { apply (run_preserves speech_error_truthy) with (evs := evs) (s := boot w);
      auto.
    - intros ev s1 s2. apply step_speech_error_truthy.
    - discriminate. }
  unfold speech_error_truthy in H. simpl in He.
  destruct e; [congruence | reflexivity].
Qed.


(** *** Starting *)

(** C3. Whenever the recognition capability is reported supported,
    [startRecording] returns without reaching [getUserMedia]: its effects
    are those of [setError(null)], of the adapter's [startListening] and
    of [setIsRecording(true)], none of them a device effect, and the
    recorder ref and the chunk buffer are left as they were. *)
Theorem startRecording_supported_never_captures :
  forall (cl : Closure) (eng : WebSpeech.EngineOutcome) (s : Store),
    WebSpeech.isSupported (webSpeech cl) = true ->
    completion (startRecording cl eng s) = Normal StartReturned /\
    effects_of (startRecording cl eng s) =
      SetError None ::
      effects_of (WebSpeech.startListening true eng (speech s)) ++
      [SetIsRecording true] /\
    no_device_effect (effects_of (startRecording cl eng s)) = true /\
    mediaRecorder (voice (store_of (startRecording cl eng s))) =
      mediaRecorder (voice s) /\
    audioChunks (voice (store_of (startRecording cl eng s))) =
      audioChunks (voice s) /\
    st_isRecording (voice (store_of (startRecording cl eng s))) = true.
Proof.
  intros cl eng s H. unfold startRecording. rewrite H.
  destruct eng; cbn; repeat split.
Qed.

Lemma startRecording_supported_never_captures_witness :
  let s := initial_store window_with_recognition in
  WebSpeech.isSupported (webSpeech (closure_of s)) = true /\
  no_device_effect
    (effects_of (startRecording (closure_of s) WebSpeech.EngineOk s)) = true.
Proof.
  split; [reflexivity|].
  apply (startRecording_supported_never_captures
           (closure_of (initial_store window_with_recognition))
           WebSpeech.EngineOk (initial_store window_with_recognition)).
  reflexivity.
Defined.

(** C8. Without the recognition capability [startRecording] clears the
    error, asks for the device and suspends.  When the device is denied,
    or the recorder cannot be created or started, the resumed call
    catches the exception: it ends normally, sets the error field to the
    microphone-permission message, which the public error field then
    shows, and leaves the [isRecording] cell, hence the reported
    [isRecording], as it was. *)
Theorem startRecording_device_denied :
  forall (cl : Closure) (eng : WebSpeech.EngineOutcome)
         (p : RecorderPlatform) (s s2 : Store),
    WebSpeech.isSupported (webSpeech cl) = false ->
    startRecording cl eng s =
      (Normal AwaitGetUserMedia, with_voice (with_error None (voice s)) s,
       [SetError None; GetUserMedia constraints]) /\
    startRecording_acquired Denied p s2 =
      (Normal tt,
       with_voice (with_error (Some start_failed_message) (voice s2)) s2,
       [SetError (Some start_failed_message)]) /\
    error (render (store_of (startRecording_acquired Denied p s2))) =
      Some start_failed_message /\
    isRecording (render (store_of (startRecording_acquired Denied p s2))) =
      isRecording (render s2) /\
    (forall tracks,
       constructor_throws p || start_throws p = true ->
       let r := startRecording_acquired (Granted tracks) p s2 in
       completion r = Normal tt /\
       error (render (store_of r)) = Some start_failed_message /\
       isRecording (render (store_of r)) = isRecording (render s2)).
Proof.
  intros cl eng p s s2 H. split; [|split; [|split; [|split]]].
  - unfold startRecording. rewrite H. reflexivity.
  - reflexivity.
  - reflexivity.
  - reflexivity.
  - intros tracks Hfail. cbv zeta.
    unfold startRecording_acquired, new_MediaRecorder, recorder_start.
    destruct (constructor_throws p); [repeat split|].
    simpl in Hfail. rewrite Hfail. repeat split.
Qed.

Lemma startRecording_device_denied_witness :
  let s := initial_store window_without_recognition in
  WebSpeech.isSupported (webSpeech (closure_of s)) = false /\
  error (render (store_of (startRecording_acquired Denied working_recorder s)))
    = Some start_failed_message /\
  isRecording
    (render (store_of (startRecording_acquired Denied working_recorder s)))
    = false.
Proof.
  split; [reflexivity|].
  destruct (startRecording_device_denied
              (closure_of (initial_store window_without_recognition))
              WebSpeech.EngineOk working_recorder
              (initial_store window_without_recognition)
              (initial_store window_without_recognition)
              eq_refl) as (_ & _ & He & Hr & _).
  split; [exact He|]. rewrite Hr. reflexivity.
Defined.

(** C9, as the claim states it, fails: after a result of confidence 0.9,
    [startListening] leaves the confidence at 0.9, not at its initial
    value 0. *)
Lemma startListening_keeps_confidence :
  let sys := state_after window_with_recognition session_heard in
  reachable window_with_recognition sys /\
  WebSpeech.st_confidence
    (store_of (WebSpeech.startListening true WebSpeech.EngineOk
                 (speech (store sys)))) = (9 # 10)%Q /\
  WebSpeech.st_confidence WebSpeech.initial = 0%Q /\
  ~ ((9 # 10) == 0)%Q.
Proof.
  cbv zeta. split; [|split; [|split]].
  - exists session_heard. vm_compute; reflexivity.
  - vm_compute; reflexivity.
  - reflexivity.
  - intros H. discriminate H.
Qed.

(** C9, amended. With the capability, [startListening] first sets the
    error to null and the transcript to empty, and only then creates,
    configures and starts the engine; the confidence is left as it was.
    When the platform lets the engine start, the adapter ends with an
    empty transcript, no error and the engine configured for one
    utterance, interim results, [en-US] and one alternative.  Without the
    capability it only sets the unsupported error: no engine is created
    or started. *)
Theorem startListening_resets_transcript_and_error :
  forall (out : WebSpeech.EngineOutcome) (s : WebSpeech.State),
    (exists rest,
       effects_of (WebSpeech.startListening true out s) =
         SetSpeechError None :: SetTranscript "" :: rest) /\
    WebSpeech.st_transcript
      (store_of (WebSpeech.startListening true out s)) = "" /\
    WebSpeech.st_confidence
      (store_of (WebSpeech.startListening true out s)) =
      WebSpeech.st_confidence s /\
    WebSpeech.startListening true WebSpeech.EngineOk s =
      (Normal tt,
       {| WebSpeech.st_isListening := WebSpeech.st_isListening s;
          WebSpeech.st_transcript := "";
          WebSpeech.st_error := None;
          WebSpeech.st_confidence := WebSpeech.st_confidence s;
          WebSpeech.recognition := Some configured_engine |},
       [SetSpeechError None; SetTranscript "";
        NewSpeechRecognition; EngineStart]) /\
    WebSpeech.startListening false out s =
      (Normal tt, WebSpeech.with_error (Some unsupported_message) s,
       [SetSpeechError (Some unsupported_message)]).
Proof.
  intros out s. split; [|repeat split].
  - destruct out; eexists; reflexivity.
  - destruct out; reflexivity.
  - destruct out; reflexivity.
Qed.

(** *** Stopping on the in-browser path *)

(** C6. When the [isRecording] cell it closed over is false,
    [stopRecording] resolves null at once, performs no other effect and
    leaves the store, hence the public error field, as it was. *)
Theorem stopRecording_idle_resolves_null :
  forall (cl : Closure) (s : Store),
    c_isRecording cl = false ->
    stopRecording cl s = (Normal (Resolved None), s, [Resolve None]) /\
    error (render (store_of (stopRecording cl s))) = error (render s).
Proof.
  intros cl s H. unfold stopRecording. rewrite H. split; reflexivity.
Qed.

Lemma stopRecording_idle_resolves_null_witness :
  let s := initial_store window_without_recognition in
  c_isRecording (closure_of s) = false /\
  stopRecording (closure_of s) s = (Normal (Resolved None), s, [Resolve None]).
Proof.
  split; [reflexivity|].
  apply (stopRecording_idle_resolves_null
           (closure_of (initial_store window_without_recognition))
           (initial_store window_without_recognition)).
  reflexivity.
Defined.

(** C10. In a window with the recognition capability, whenever the
    [isRecording] cell is true and the adapter's [isListening] is false,
    [stopRecording] finds no media recorder and resolves null at once: no
    engine stop, no settle timer, no error set, and the store, with its
    [isRecording] cell still true, is left as it was. *)
Theorem stopRecording_after_engine_ended :
  forall (w : WebSpeech.Window) (sys : Sys),
    WebSpeech.probe w = true ->
    reachable w sys ->
    st_isRecording (voice (store sys)) = true ->
    WebSpeech.st_isListening (speech (store sys)) = false ->
    mediaRecorder (voice (store sys)) = None /\
    stopRecording (closure_of (store sys)) (store sys) =
      (Normal (Resolved None), store sys, [Resolve None]) /\
    st_isRecording
      (voice (store_of (stopRecording (closure_of (store sys)) (store sys))))
      = true.
Proof.
  intros w sys Hw Hreach Hrec Hlis.
  destruct (reachable_browser_only w sys Hw Hreach) as (_ & Hr & _).
  assert (E : stopRecording (closure_of (store sys)) (store sys) =
              (Normal (Resolved None), store sys, [Resolve None])).
  { unfold stopRecording, closure_of; simpl. rewrite Hrec, Hlis; simpl.
    unfold bind, read; simpl. rewrite Hr. reflexivity. }
  rewrite E. repeat split; auto.
Qed.

Lemma stopRecording_after_engine_ended_witness :
  let sys := state_after window_with_recognition session_ended_by_engine in
  reachable window_with_recognition sys /\
  stopRecording (closure_of (store sys)) (store sys) =
    (Normal (Resolved None), store sys, [Resolve None]).
Proof.
  assert (R : reachable window_with_recognition
                (state_after window_with_recognition session_ended_by_engine)).
  { exists session_ended_by_engine. vm_compute; reflexivity. }
  split; [exact R|].
  apply (stopRecording_after_engine_ended window_with_recognition
           (state_after window_with_recognition session_ended_by_engine)
           eq_refl R).
  all: vm_compute; reflexivity.
Defined.

(** C7, as the claim states it, fails: right after [stopRecording] has
    signalled the adapter and cleared its own cell, with the settle timer
    pending, the hook still reports [isRecording] true, because the
    adapter is still listening.  And once the engine has ended on its own
    and [stopRecording] has resolved null, nothing is pending and the
    adapter no longer listens, yet the hook reports [isRecording] true. *)
Lemma isRecording_observed_during_settle_delay :
  let sys := state_after window_with_recognition session_listening in
  let cl := closure_of (store sys) in
  let idle := state_after window_with_recognition session_stopped_after_end in
  (reachable window_with_recognition sys /\
   c_isRecording cl = true /\
   WebSpeech.isListening (webSpeech cl) = true /\
   completion (stopRecording cl (store sys)) = Normal AwaitSettle /\
   st_isRecording (voice (store_of (stopRecording cl (store sys)))) = false /\
   isRecording (render (store_of (stopRecording cl (store sys)))) = true) /\
  (reachable window_with_recognition idle /\
   pending idle = [] /\
   WebSpeech.st_isListening (speech (store idle)) = false /\
   last (history idle) EngineStart = Resolve None /\
   isRecording (render (store idle)) = true).
Proof.
  cbv zeta. split; split.
  - exists session_listening. vm_compute; reflexivity.
  - repeat split; vm_compute; reflexivity.
  - exists session_stopped_after_end. vm_compute; reflexivity.
  - repeat split; vm_compute; reflexivity.
Qed.

(** C7, amended. On the in-browser branch [stopRecording] signals the
    adapter to stop, then clears the [isRecording] cell, then starts the
    settle timer and suspends.  The [isRecording] the hook reports is the
    disjunction of that cell and the adapter's [isListening], so after the
    clear it is what the adapter's [isListening] is. *)
Theorem stopRecording_clears_isRecording_cell :
  forall (cl : Closure) (s : Store),
    c_isRecording cl = true ->
    WebSpeech.isListening (webSpeech cl) = true ->
    completion (stopRecording cl s) = Normal AwaitSettle /\
    effects_of (stopRecording cl s) =
      effects_of (WebSpeech.stopListening (speech s)) ++
      [SetIsRecording false; SetTimeout 1000] /\
    st_isRecording (voice (store_of (stopRecording cl s))) = false /\
    isRecording (render (store_of (stopRecording cl s))) =
      WebSpeech.st_isListening (speech s) /\
    (forall s' : Store,
       isRecording (render s') =
       st_isRecording (voice s') || WebSpeech.st_isListening (speech s')).
Proof.
  intros cl s Hrec Hlis. unfold stopRecording. rewrite Hrec, Hlis; simpl.
  unfold in_speech, lift, WebSpeech.stopListening, bind, read; simpl.
  destruct (WebSpeech.recognition (speech s)); repeat split.
Qed.

Lemma stopRecording_clears_isRecording_cell_witness :
  let s := store (state_after window_with_recognition session_listening) in
  c_isRecording (closure_of s) = true /\
  WebSpeech.isListening (webSpeech (closure_of s)) = true /\
  effects_of (stopRecording (closure_of s) s) =
    effects_of (WebSpeech.stopListening (speech s)) ++
    [SetIsRecording false; SetTimeout 1000].
Proof.
  split; [vm_compute; reflexivity|]. split; [vm_compute; reflexivity|].
  apply (stopRecording_clears_isRecording_cell
           (closure_of
              (store (state_after window_with_recognition session_listening)))
           (store (state_after window_with_recognition session_listening)));
    vm_compute; reflexivity.
Defined.

(** The resolution order on the values the call closed over.  On the
    in-browser branch [stopRecording] suspends on the settle timer, and
    whatever the store is when the timer fires it resolves by the
    transcript and the error of the [webSpeech] object of its own render:
    a transcript that is non-empty after trimming is returned trimmed;
    otherwise a non-empty error is put, prefixed, in the error field and
    null is returned; otherwise the no-speech message is set and null is
    returned. *)
Theorem stopRecording_in_browser_policy :
  forall (cl : Closure) (s s2 : Store),
    c_isRecording cl = true ->
    WebSpeech.isListening (webSpeech cl) = true ->
    completion (stopRecording cl s) = Normal AwaitSettle /\
    (JS.trim (WebSpeech.transcript (webSpeech cl)) <> "" ->
       stopRecording_settled cl s2 =
         (Normal (Some (JS.trim (WebSpeech.transcript (webSpeech cl)))), s2,
          [Resolve (Some (JS.trim (WebSpeech.transcript (webSpeech cl))))])) /\
    (JS.trim (WebSpeech.transcript (webSpeech cl)) = "" ->
     forall e, WebSpeech.error (webSpeech cl) = Some e -> e <> "" ->
       completion (stopRecording_settled cl s2) = Normal None /\
       effects_of (stopRecording_settled cl s2) =
         [SetError (Some ("Web Speech API error: " ++ e)%string);
          Resolve None] /\
       error (render (store_of (stopRecording_settled cl s2))) =
         Some ("Web Speech API error: " ++ e)%string) /\
    (JS.trim (WebSpeech.transcript (webSpeech cl)) = "" ->
     JS.truthy_opt (WebSpeech.error (webSpeech cl)) = false ->
       completion (stopRecording_settled cl s2) = Normal None /\
       effects_of (stopRecording_settled cl s2) =
         [SetError (Some "No speech detected. Please try again.");
          Resolve None] /\
       error (render (store_of (stopRecording_settled cl s2))) =
         Some "No speech detected. Please try again.").
Proof.
  intros cl s s2 Hrec Hlis. split; [|split; [|split]].
  - unfold stopRecording. rewrite Hrec, Hlis; simpl.
    unfold in_speech, lift, WebSpeech.stopListening, bind, read; simpl.
    destruct (WebSpeech.recognition (speech s)); reflexivity.
  - intros Ht. apply truthy_nonempty in Ht.
    unfold stopRecording_settled. rewrite truthy_trim, Ht. reflexivity.
  - intros Ht e He Hne. apply truthy_nonempty in Hne.
    unfold stopRecording_settled. rewrite truthy_trim, Ht, He, Hne.
    repeat split.
  - intros Ht He.
    unfold stopRecording_settled. rewrite truthy_trim, Ht.
    destruct (WebSpeech.error (webSpeech cl)) as [e|]; simpl in He;
      [rewrite He|]; repeat split.
Qed.

Lemma stopRecording_in_browser_policy_witness :
  let cl := {| c_isRecording := true;
               webSpeech := {| WebSpeech.isListening := true;
                               WebSpeech.isSupported := true;
                               WebSpeech.transcript := "  hello world ";
                               WebSpeech.error := None;
                               WebSpeech.confidence := 0%Q |} |} in
  let s := initial_store window_with_recognition in
  c_isRecording cl = true /\
  WebSpeech.isListening (webSpeech cl) = true /\
  stopRecording_settled cl s =
    (Normal (Some "hello world"), s, [Resolve (Some "hello world")]).
Proof.
  split; [reflexivity|]. split; [reflexivity|].
  apply (stopRecording_in_browser_policy
           {| c_isRecording := true;
              webSpeech := {| WebSpeech.isListening := true;
                              WebSpeech.isSupported := true;
                              WebSpeech.transcript := "  hello world ";
                              WebSpeech.error := None;
                              WebSpeech.confidence := 0%Q |} |}
           (initial_store window_with_recognition)
           (initial_store window_with_recognition)
           eq_refl eq_refl).
  vm_compute. discriminate.
Defined.

(** C1. [stopRecording] is called while the adapter listens and has heard
    nothing; the engine then delivers the final result [hello world] and
    ends, all within the settle delay.  When the timer fires the adapter
    holds [hello world], but the resumed call reads the empty transcript
    of the render it closed over: it sets the no-speech error and
    resolves null. *)
Theorem late_final_result_is_not_returned :
  let before := state_after window_with_recognition session_late_final in
  reachable window_with_recognition before /\
  WebSpeech.st_transcript (speech (store before)) = "hello world" /\
  WebSpeech.st_error (speech (store before)) = None /\
  (exists cl, pending before = [Settling cl] /\
              WebSpeech.transcript (webSpeech cl) = "") /\
  exists after,
    step (TimerFired 0) before = Some after /\
    pending after = [] /\
    history after =
      history before ++
      [SetError (Some "No speech detected. Please try again.");
       Resolve None].
Proof.
  cbv zeta. split; [|split; [|split; [|split]]].
  - exists session_late_final. vm_compute; reflexivity.
  - vm_compute; reflexivity.
  - vm_compute; reflexivity.
  - eexists. split; vm_compute; reflexivity.
  - eexists. split; [vm_compute; reflexivity|]. split; vm_compute; reflexivity.
Qed.

(** The same loss with an interim result: the call closed over the
    interim transcript [hello] and resolves with it, although the adapter
    holds the final [hello world] when the timer fires. *)
Example interim_result_is_returned_instead :
  let before :=
    state_after window_with_recognition session_interim_then_final in
  WebSpeech.st_transcript (speech (store before)) = "hello world" /\
  exists after,
    step (TimerFired 0) before = Some after /\
    history after = history before ++ [Resolve (Some "hello")].
Proof.
  cbv zeta. split; [vm_compute; reflexivity|].
  eexists. split; vm_compute; reflexivity.
Qed.

(** C2. The order of the checks is applied to the values the call
    closed over, not to what the adapter holds when the settle delay has
    passed.  [stopRecording] is called while the adapter listens with
    nothing heard and no error; the engine then reports the error
    [network] within the delay.  When the timer fires the adapter holds
    an empty transcript and that error, but the resumed call reads the
    null error of its own render: it sets the no-speech message, which
    the hook then reports in place of the adapter's error, and resolves
    null.  Whatever the adapter holds by then, the resumed call resolves
    the same way and performs the same effects. *)
Theorem late_adapter_error_is_not_surfaced :
  let before := state_after window_with_recognition session_late_error in
  reachable window_with_recognition before /\
  WebSpeech.st_transcript (speech (store before)) = "" /\
  WebSpeech.st_error (speech (store before)) =
    Some "Speech recognition error: network" /\
  (exists cl, pending before = [Settling cl] /\
              WebSpeech.error (webSpeech cl) = None) /\
  (exists after,
     step (TimerFired 0) before = Some after /\
     history after =
       history before ++
       [SetError (Some "No speech detected. Please try again.");
        Resolve None] /\
     error (render (store after)) =
       Some "No speech detected. Please try again.") /\
  (forall (cl : Closure) (s2 s2' : Store),
     completion (stopRecording_settled cl s2) =
       completion (stopRecording_settled cl s2') /\
     effects_of (stopRecording_settled cl s2) =
       effects_of (stopRecording_settled cl s2')).
Proof.
  cbv zeta. split; [|split; [|split; [|split; [|split]]]].
  - exists session_late_error. vm_compute; reflexivity.
  - vm_compute; reflexivity.
  - vm_compute; reflexivity.
  - eexists. split; vm_compute; reflexivity.
  - eexists. split; [vm_compute; reflexivity|]. split; vm_compute; reflexivity.
  - intros cl s2 s2'. unfold stopRecording_settled.
    destruct (JS.truthy _ && JS.truthy _); [split; reflexivity|].
    destruct (WebSpeech.error (webSpeech cl)) as [e|];
      [destruct (JS.truthy e)|]; split; reflexivity.
Qed.

(** *** Stopping on the device path *)

(** C5. In every state the component can reach, [isProcessing] is set
    only while a stopped recording is being processed: the recorder's
    stop event has run and the promise is not yet resolved.  The stop
    event sets it, unless building the blob fails at once; a failed read
    and every answer of the gateway clear it; so every device-path
    [stopRecording] that resolves leaves it false.  The in-browser branch
    of [stopRecording], before and after the settle timer, and a
    [startRecording] with the capability never call its setter, and in a
    window with the capability it is false throughout. *)
Theorem isProcessing_only_while_processing :
  forall (w : WebSpeech.Window) (sys : Sys),
    reachable w sys ->
    (st_isProcessing (voice (store sys)) = true ->
     existsb is_processing_task (pending sys) = true) /\
    (WebSpeech.probe w = true ->
     st_isProcessing (voice (store sys)) = false) /\
    (forall n b sys',
       step (RecorderStopped n b) sys = Some sys' ->
       st_isProcessing (voice (store sys')) = negb b) /\
    (forall n sys',
       step (ReaderLoaded n None) sys = Some sys' ->
       st_isProcessing (voice (store sys')) = false) /\
    (forall n resp sys',
       step (GatewayAnswered n resp) sys = Some sys' ->
       st_isProcessing (voice (store sys')) = false) /\
    (forall cl o r,
       c_isRecording cl = true ->
       WebSpeech.isListening (webSpeech cl) = false ->
       mediaRecorder (voice (store sys)) = Some r ->
       (exists v,
          completion (device_stop cl o (store sys)) = Normal (Settled v)) /\
       st_isProcessing (voice (store_of (device_stop cl o (store sys))))
         = false) /\
    (forall cl s2,
       c_isRecording cl = true ->
       WebSpeech.isListening (webSpeech cl) = true ->
       existsb sets_isProcessing
         (effects_of (stopRecording cl (store sys)) ++
          effects_of (stopRecording_settled cl s2)) = false /\
       st_isProcessing (voice (store_of (stopRecording cl (store sys)))) =
         st_isProcessing (voice (store sys)) /\
       st_isProcessing (voice (store_of (stopRecording_settled cl s2))) =
         st_isProcessing (voice s2)) /\
    (forall cl eng,
       WebSpeech.isSupported (webSpeech cl) = true ->
       existsb sets_isProcessing
         (effects_of (startRecording cl eng (store sys))) = false).
Proof.
  intros w sys Hreach.
  split; [exact (reachable_processing_accounted w sys Hreach)|].
  split; [intros Hw; apply (reachable_browser_only w sys Hw Hreach)|].
  split; [|split; [|split; [|split; [|split]]]].
  - intros n b sys' Hs. simpl in Hs. resumed Hs.
    destruct (recorder_has has_onstop sys); [|discriminate].
    injection Hs as <-. apply (onstop_run b (store sys)).
  - intros n sys' Hs. simpl in Hs. resumed Hs.
    injection Hs as <-. reflexivity.
  - intros n resp sys' Hs. simpl in Hs. resumed Hs.
    injection Hs as <-. apply (onloadend_answered_run resp (store sys)).
  - intros cl o r Hrec Hlis Hr.
    destruct (device_stop_run cl o (store sys) r Hrec Hlis Hr)
      as (Hv & _ & Hp).
    split; assumption.
  - intros cl s2 _ _. rewrite existsb_app.
    rewrite (proj2 (stopRecording_keeps_isProcessing cl (store sys))).
    rewrite (proj2 (stopRecording_settled_keeps_isProcessing cl s2)).
    split; [reflexivity|]. split.
    + apply stopRecording_keeps_isProcessing.
    + apply stopRecording_settled_keeps_isProcessing.
  - intros cl eng _. apply startRecording_keeps_isProcessing.
Qed.

Lemma isProcessing_only_while_processing_witness :
  let sys := state_after window_without_recognition session_transcribing in
  reachable window_without_recognition sys /\
  st_isProcessing (voice (store sys)) = true /\
  existsb is_processing_task (pending sys) = true.
Proof.
  assert (R : reachable window_without_recognition
                (state_after window_without_recognition
                   session_transcribing))
    by (exists session_transcribing; vm_compute; reflexivity).
  split; [exact R|]. split; [vm_compute; reflexivity|].
  apply (isProcessing_only_while_processing window_without_recognition
           (state_after window_without_recognition session_transcribing) R).
  vm_compute; reflexivity.
Defined.

(** The gateway returns a text: the call resolves with it. *)
Example device_stop_transcribed :
  let s := store (state_after window_without_recognition session_recording) in
  completion (device_stop (closure_of s) transcribed s) =
    Normal (Settled (Some "transcribed")) /\
  effects_of (device_stop (closure_of s) transcribed s) =
    [RecorderStop; SetIsRecording false; SetIsProcessing true;
     NewBlob [5]; ReadAsDataURL; TrackStop 1; TrackStop 2;
     Invoke "voice-to-text" (Some "AAAA");
     SetIsProcessing false; Resolve (Some "transcribed")].
Proof. cbv zeta. split; vm_compute; reflexivity. Qed.

(** The gateway call rejects: the call resolves null with the quota
    error, [isProcessing] false. *)
Example device_stop_gateway_rejects :
  let s := store (state_after window_without_recognition session_recording) in
  let o := {| blob_throws := false;
              reader_result := Some "data:audio/webm;base64,AAAA";
              gateway := InvokeRejects |} in
  completion (device_stop (closure_of s) o s) = Normal (Settled None) /\
  error (render (store_of (device_stop (closure_of s) o s))) =
    Some "API quota exceeded. Please try the built-in voice recognition." /\
  isProcessing (render (store_of (device_stop (closure_of s) o s))) = false /\
  track_stops (effects_of (device_stop (closure_of s) o s)) = [1; 2].
Proof. cbv zeta. repeat split; vm_compute; reflexivity. Qed.

(** The gateway returns an empty text: the call resolves null, without an
    error. *)
Example device_stop_empty_text :
  let s := store (state_after window_without_recognition session_recording) in
  let o := {| blob_throws := false;
              reader_result := Some "data:audio/webm;base64,AAAA";
              gateway := InvokeReturns (Some {| text := Some "" |}) false |} in
  completion (device_stop (closure_of s) o s) = Normal (Settled None) /\
  error (render (store_of (device_stop (closure_of s) o s))) = None /\
  track_stops (effects_of (device_stop (closure_of s) o s)) = [1; 2].
Proof. cbv zeta. repeat split; vm_compute; reflexivity. Qed.

(** Building the blob fails: the call resolves null in the stop event
    itself, and the tracks are stopped after the resolution. *)
Example device_stop_blob_fails :
  let s := store (state_after window_without_recognition session_recording) in
  let o := {| blob_throws := true; reader_result := None;
              gateway := InvokeRejects |} in
  effects_of (device_stop (closure_of s) o s) =
    [RecorderStop; SetIsRecording false; SetIsProcessing true;
     SetError (Some "Failed to process recording.");
     SetIsProcessing false; Resolve None; TrackStop 1; TrackStop 2].
Proof. cbv zeta. vm_compute; reflexivity. Qed.

(** ** Further properties *)

(** *** The adapter's events *)

Lemma last_elem_app {A : Type} (l : list A) (x : A) :
  JS.last_elem (l ++ [x]) = Some x.
Proof.
  unfold JS.last_elem. rewrite length_app. simpl.
  replace (length l + 1 - 1) with (length l) by lia.
  rewrite nth_error_app2 by lia. now rewrite Nat.sub_diag.
Qed.

(** X1. A result event takes the last entry of [event.results] and
    nothing else: the transcript and the confidence (0 when missing)
    become those of that entry, whatever was heard before, the error is
    kept, and listening is cleared exactly when the entry is final.  An
    event without entries throws and changes nothing. *)
Theorem onresult_last_value_wins :
  forall (earlier : list WebSpeech.SpeechResult)
         (r : WebSpeech.SpeechResult) (s : WebSpeech.State),
    WebSpeech.onresult (earlier ++ [r]) s =
      (Normal tt,
       {| WebSpeech.st_isListening :=
            if WebSpeech.isFinal r then false else WebSpeech.st_isListening s;
          WebSpeech.st_transcript := WebSpeech.alt_transcript r;
          WebSpeech.st_error := WebSpeech.st_error s;
          WebSpeech.st_confidence := JS.or_zero (WebSpeech.alt_confidence r);
          WebSpeech.recognition := WebSpeech.recognition s |},
       SetTranscript (WebSpeech.alt_transcript r) ::
       SetConfidence (JS.or_zero (WebSpeech.alt_confidence r)) ::
       (if WebSpeech.isFinal r then [SetIsListening false] else [])) /\
    WebSpeech.onresult [] s = (Thrown "TypeError", s, []).
Proof.
  intros earlier r s. split; [|reflexivity].
  unfold WebSpeech.onresult. rewrite last_elem_app.
  destruct (WebSpeech.isFinal r); reflexivity.
Qed.

(** X2. When the platform refuses to create or to start the engine,
    [startListening] does not throw: it ends with the start-failure
    error, not listening, the transcript empty, and the engine was never
    started.  A failed constructor leaves [recognition.current] as it
    was; a failed start leaves the new, configured engine there. *)
Theorem startListening_engine_failure :
  forall (out : WebSpeech.EngineOutcome) (s : WebSpeech.State),
    out <> WebSpeech.EngineOk ->
    completion (WebSpeech.startListening true out s) = Normal tt /\
    WebSpeech.st_error (store_of (WebSpeech.startListening true out s)) =
      Some "Failed to start speech recognition" /\
    WebSpeech.st_isListening (store_of (WebSpeech.startListening true out s))
      = false /\
    WebSpeech.st_transcript (store_of (WebSpeech.startListening true out s))
      = "" /\
    ~ In EngineStart (effects_of (WebSpeech.startListening true out s)) /\
    WebSpeech.recognition (store_of (WebSpeech.startListening true out s)) =
      match out with
      | WebSpeech.ConstructorThrows => WebSpeech.recognition s
      | _ => Some configured_engine
      end.
Proof.
  intros out s H. destruct out; [congruence| |]; cbn;
    repeat split; intros Hin; simpl in Hin;
    repeat (destruct Hin as [Hin|Hin]; [discriminate Hin|]); exact Hin.
Qed.

Lemma startListening_engine_failure_witness :
  WebSpeech.StartThrows <> WebSpeech.EngineOk /\
  WebSpeech.st_error
    (store_of (WebSpeech.startListening true WebSpeech.StartThrows
                 WebSpeech.initial)) =
    Some "Failed to start speech recognition".
Proof.
  split; [discriminate|].
  apply (startListening_engine_failure WebSpeech.StartThrows
           WebSpeech.initial).
  discriminate.
Defined.

(** *** What an event does to the adapter and to the window *)

Lemma step_speech_cases ev s s' :
  step ev s = Some s' ->
  speech (store s') = speech (store s) \/
  (exists eng,
     WebSpeech.probe (window (store s)) = true /\
     speech (store s') =
       store_of (WebSpeech.startListening true eng (speech (store s)))) \/
  (WebSpeech.recognition (speech (store s)) <> None /\
   (speech (store s') = store_of (WebSpeech.onstart (speech (store s))) \/
    (exists rs, speech (store s') =
                  store_of (WebSpeech.onresult rs (speech (store s)))) \/
    (exists code, speech (store s') =
                    store_of (WebSpeech.onerror code (speech (store s)))) \/
    speech (store s') = store_of (WebSpeech.onend (speech (store s))))).
Proof.
  intros Hs. destruct s as [st pend hist]; simpl in *.
  destruct ev as [eng| |n acq p|n|n b|n result|n resp| |results|code| |data];
    simpl in Hs.
  - injection Hs as <-. unfold commit, startRecording; simpl.
    destruct (WebSpeech.probe (window st)) eqn:Hw.
    + right; left. exists eng. split; [reflexivity|].
      destruct eng; reflexivity.
    + left. reflexivity.
  - injection Hs as <-. left. unfold commit; cbn [store].
    apply stopRecording_keeps_speech.
  - resumed Hs. injection Hs as <-. left. unfold commit; cbn [store].
    apply startRecording_acquired_keeps_speech.
  - resumed Hs. injection Hs as <-. left. unfold commit; cbn [store].
    apply stopRecording_settled_keeps_speech.
  - resumed Hs. destruct (recorder_has has_onstop _); [|discriminate].
    injection Hs as <-. left. unfold commit; cbn [store].
    apply onstop_keeps_speech.
  - resumed Hs. injection Hs as <-. left. unfold commit; cbn [store].
    apply onloadend_keeps_speech.
  - resumed Hs. injection Hs as <-. left. unfold commit; cbn [store].
    apply onloadend_answered_keeps_speech.
  - unfold engine_has in Hs; simpl in Hs.
    destruct (WebSpeech.recognition (speech st)) as [e|] eqn:He;
      [|discriminate].
    destruct (WebSpeech.has_onstart e); [|discriminate].
    injection Hs as <-. right; right. split; [congruence|]. left.
    unfold commit; cbn [store]. apply in_speech_speech.
  - unfold engine_has in Hs; simpl in Hs.
    destruct (WebSpeech.recognition (speech st)) as [e|] eqn:He;
      [|discriminate].
    destruct (WebSpeech.has_onresult e); [|discriminate].
    injection Hs as <-. right; right. split; [congruence|]. right; left.
    exists results. unfold commit; cbn [store]. apply in_speech_speech.
  - unfold engine_has in Hs; simpl in Hs.
    destruct (WebSpeech.recognition (speech st)) as [e|] eqn:He;
      [|discriminate].
    destruct (WebSpeech.has_onerror e); [|discriminate].
    injection Hs as <-. right; right. split; [congruence|]. right; right; left.
    exists code. unfold commit; cbn [store]. apply in_speech_speech.
  - unfold engine_has in Hs; simpl in Hs.
    destruct (WebSpeech.recognition (speech st)) as [e|] eqn:He;
      [|discriminate].
    destruct (WebSpeech.has_onend e); [|discriminate].
    injection Hs as <-. right; right. split; [congruence|].
    right; right; right.
    unfold commit; cbn [store]. apply in_speech_speech.
  - destruct (recorder_has _ _); [|discriminate]. injection Hs as <-.
    left. unfold commit; cbn [store]. apply ondataavailable_keeps_speech.
Qed.

Lemma in_speech_keeps_window {A : Type} (m : Run WebSpeech.State A) s :
  window (store_of (in_speech m s)) = window s.
Proof.
  unfold in_speech, lift, store_of.
  destruct (m (speech s)) as [[c t] l]. reflexivity.
Qed.

Lemma startRecording_keeps_window cl eng s :
  window (store_of (startRecording cl eng s)) = window s.
Proof.
  unfold startRecording.
  destruct (WebSpeech.isSupported (webSpeech cl)); [destruct eng|];
    reflexivity.
Qed.

Lemma stopRecording_keeps_window cl s :
  window (store_of (stopRecording cl s)) = window s.
Proof.
  unfold stopRecording.
  destruct (c_isRecording cl); simpl; [|reflexivity].
  destruct (WebSpeech.isListening (webSpeech cl)); simpl.
  - unfold in_speech, lift, WebSpeech.stopListening, bind, read; simpl.
    destruct (WebSpeech.recognition (speech s)); reflexivity.
  - destruct (mediaRecorder (voice s)) as [r|] eqn:Hr;
      repeat (unfold bind, read, assign; simpl; rewrite ?Hr); reflexivity.
Qed.

Lemma stopRecording_settled_keeps_window cl s :
  window (store_of (stopRecording_settled cl s)) = window s.
Proof.
  unfold stopRecording_settled.
  destruct (JS.truthy _ && JS.truthy _); [reflexivity|].
  destruct (WebSpeech.error (webSpeech cl)) as [e|];
    [destruct (JS.truthy e)|]; reflexivity.
Qed.

Lemma startRecording_acquired_keeps_window acq p s :
  window (store_of (startRecording_acquired acq p s)) = window s.
Proof.
  unfold startRecording_acquired, new_MediaRecorder, recorder_start.
  destruct acq; [|reflexivity].
  destruct (constructor_throws p); [reflexivity|].
  destruct (start_throws p); reflexivity.
Qed.

Lemma onstop_keeps_window b s : window (store_of (onstop b s)) = window s.
Proof.
  unfold onstop.
  destruct b; cbn; unfold bind; rewrite stop_tracks_run; reflexivity.
Qed.

Lemma onloadend_keeps_window result s :
  window (store_of (onloadend result s)) = window s.
Proof. destruct result; reflexivity. Qed.

Lemma onloadend_answered_keeps_window resp s :
  window (store_of (onloadend_answered resp s)) = window s.
Proof. destruct resp as [|[d|] []]; reflexivity. Qed.

Lemma ondataavailable_keeps_window data s :
  window (store_of (ondataavailable data s)) = window s.
Proof. unfold ondataavailable. destruct (Nat.ltb 0 data); reflexivity. Qed.

Lemma step_window ev s s' :
  step ev s = Some s' -> window (store s') = window (store s).
Proof.
  intros Hs. destruct s as [st pend hist]; simpl in *.
  destruct ev as [eng| |n acq p|n|n b|n result|n resp| |results|code| |data];
    simpl in Hs.
  - injection Hs as <-. apply startRecording_keeps_window.
  - injection Hs as <-. apply stopRecording_keeps_window.
  - resumed Hs. injection Hs as <-.
    apply startRecording_acquired_keeps_window.
  - resumed Hs. injection Hs as <-. apply stopRecording_settled_keeps_window.
  - resumed Hs. destruct (recorder_has has_onstop _); [|discriminate].
    injection Hs as <-. apply onstop_keeps_window.
  - resumed Hs. injection Hs as <-. apply onloadend_keeps_window.
  - resumed Hs. injection Hs as <-. apply onloadend_answered_keeps_window.
  - destruct (engine_has _ _); [|discriminate]. injection Hs as <-.
    apply in_speech_keeps_window.
  - destruct (engine_has _ _); [|discriminate]. injection Hs as <-.
    apply in_speech_keeps_window.
  - destruct (engine_has _ _); [|discriminate]. injection Hs as <-.
    apply in_speech_keeps_window.
  - destruct (engine_has _ _); [|discriminate]. injection Hs as <-.
    apply in_speech_keeps_window.
  - destruct (recorder_has _ _); [|discriminate]. injection Hs as <-.
    apply ondataavailable_keeps_window.
Qed.

Lemma reachable_window w s : reachable w s -> window (store s) = w.
Proof.
  intros [evs Hrun].
  apply (run_preserves (fun x => window (store x) = w))
    with (evs := evs) (s := boot w); auto.
  intros ev s1 s2 H1 H2. rewrite (step_window ev s1 s2 H2). exact H1.
Qed.

(** *** Invariants of the adapter *)

Lemma step_engine_configured ev s s' :
  engine_configured s -> step ev s = Some s' -> engine_configured s'.
Proof.
  unfold engine_configured. intros HP Hs.
  destruct (step_speech_cases ev s s' Hs)
    as [E | [(eng & _ & E) | (_ & [E | [(rs & E) | [(code & E) | E]]])]];
    rewrite E; clear E.
  - exact HP.
  - destruct eng; cbn; auto.
  - exact HP.
  - unfold WebSpeech.onresult.
    destruct (JS.last_elem rs) as [r|]; [destruct (WebSpeech.isFinal r)|];
      exact HP.
  - exact HP.
  - exact HP.
Qed.

(** X3. In every state the component can reach, the engine held in
    [recognition.current], if there is one, is configured for a single
    utterance, interim results, [en-US] and one alternative, with its
    four handlers installed: no event leaves a half-configured engine
    there. *)
Theorem reachable_engine_configured :
  forall (w : WebSpeech.Window) (sys : Sys),
    reachable w sys ->
    WebSpeech.recognition (speech (store sys)) = None \/
    WebSpeech.recognition (speech (store sys)) = Some configured_engine.
Proof.
  intros w sys [evs Hrun].
  apply (run_preserves engine_configured) with (evs := evs) (s := boot w).
  - intros ev s1 s2. apply step_engine_configured.
  - left. reflexivity.
  - exact Hrun.
Qed.

Lemma reachable_engine_configured_witness :
  let sys := state_after window_with_recognition session_heard in
  reachable window_with_recognition sys /\
  WebSpeech.recognition (speech (store sys)) = Some configured_engine.
Proof.
  assert (R : reachable window_with_recognition
                (state_after window_with_recognition session_heard))
    by (exists session_heard; vm_compute; reflexivity).
  split; [exact R|].
  destruct (reachable_engine_configured window_with_recognition
              (state_after window_with_recognition session_heard) R)
    as [H|H]; [vm_compute in H; discriminate H | exact H].
Defined.

Lemma reachable_unsupported_speech w s :
  WebSpeech.probe w = false -> reachable w s ->
  speech (store s) = WebSpeech.initial.
Proof.
  intros Hw [evs Hrun].
  assert (H : window (store s) = w /\ speech (store s) = WebSpeech.initial);
    [|apply H].
  apply (run_preserves
           (fun x => window (store x) = w /\
                     speech (store x) = WebSpeech.initial))
    with (evs := evs) (s := boot w); auto.
  intros ev s1 s2 [Hwin Hsp] Hs. split.
  - now rewrite (step_window ev s1 s2 Hs).
  - destruct (step_speech_cases ev s1 s2 Hs)
      as [E | [(eng & Hp & _) | (Hr & _)]].
    + now rewrite E.
    + rewrite Hwin, Hw in Hp. discriminate Hp.
    + rewrite Hsp in Hr. now elim Hr.
Qed.

(** X4. In a window without the recognition capability the adapter is
    never touched: in every reachable state its cells are the initial
    ones (not listening, empty transcript, no error, no engine), so the
    [isRecording] the hook reports is its own cell and the error it
    reports is its own error. *)
Theorem unsupported_adapter_untouched :
  forall (w : WebSpeech.Window) (sys : Sys),
    WebSpeech.probe w = false ->
    reachable w sys ->
    speech (store sys) = WebSpeech.initial /\
    isRecording (render (store sys)) = st_isRecording (voice (store sys)) /\
    error (render (store sys)) = JS.or_null (st_error (voice (store sys))).
Proof.
  intros w sys Hw Hreach.
  pose proof (reachable_unsupported_speech w sys Hw Hreach) as H.
  split; [exact H|]. unfold render, closure_of; simpl. rewrite H; simpl.
  split; [apply orb_false_r|].
  unfold JS.or_else, JS.or_null.
  destruct (JS.truthy_opt (st_error (voice (store sys)))); reflexivity.
Qed.

Lemma unsupported_adapter_untouched_witness :
  let sys := state_after window_without_recognition session_transcribing in
  WebSpeech.probe window_without_recognition = false /\
  reachable window_without_recognition sys /\
  speech (store sys) = WebSpeech.initial.
Proof.
  assert (R : reachable window_without_recognition
                (state_after window_without_recognition
                   session_transcribing))
    by (exists session_transcribing; vm_compute; reflexivity).
  split; [reflexivity|]. split; [exact R|].
  apply (unsupported_adapter_untouched window_without_recognition
           (state_after window_without_recognition session_transcribing)
           eq_refl R).
Defined.

(** X5. An error the adapter reports is never the empty string, so on
    the in-browser branch a call that closed over an empty transcript and
    an adapter error always surfaces that error, prefixed, and never the
    no-speech message. *)
Theorem adapter_error_is_surfaced :
  forall (w : WebSpeech.Window) (sys : Sys) (e : string) (s2 : Store),
    reachable w sys ->
    c_isRecording (closure_of (store sys)) = true ->
    WebSpeech.isListening (webSpeech (closure_of (store sys))) = true ->
    JS.trim (WebSpeech.transcript (webSpeech (closure_of (store sys)))) = "" ->
    WebSpeech.error (webSpeech (closure_of (store sys))) = Some e ->
    e <> "" /\
    completion (stopRecording (closure_of (store sys)) (store sys)) =
      Normal AwaitSettle /\
    stopRecording_settled (closure_of (store sys)) s2 =
      (Normal None,
       with_voice
         (with_error (Some ("Web Speech API error: " ++ e)%string) (voice s2))
         s2,
       [SetError (Some ("Web Speech API error: " ++ e)%string);
        Resolve None]).
Proof.
  intros w sys e s2 Hreach Hrec Hlis Ht He.
  pose proof (reachable_speech_error_truthy w sys Hreach e He) as Hne.
  split; [now apply truthy_nonempty|]. split.
  - unfold stopRecording. rewrite Hrec, Hlis; simpl.
    unfold in_speech, lift, WebSpeech.stopListening, bind, read; simpl.
    destruct (WebSpeech.recognition (speech (store sys))); reflexivity.
  - unfold stopRecording_settled. rewrite truthy_trim, Ht, He, Hne.
    reflexivity.
Qed.

Lemma adapter_error_is_surfaced_witness :
  let sys := state_after window_with_recognition session_error_then_started in
  reachable window_with_recognition sys /\
  effects_of (stopRecording_settled (closure_of (store sys)) (store sys)) =
    [SetError
       (Some "Web Speech API error: Speech recognition error: network");
     Resolve None].
Proof.
  assert (R : reachable window_with_recognition
                (state_after window_with_recognition
                   session_error_then_started))
    by (exists session_error_then_started; vm_compute; reflexivity).
  split; [exact R|].
  assert (E : stopRecording_settled
                (closure_of
                   (store (state_after window_with_recognition
                             session_error_then_started)))
                (store (state_after window_with_recognition
                          session_error_then_started)) =
              (Normal None,
               with_voice
                 (with_error
                    (Some ("Web Speech API error: " ++
                           "Speech recognition error: network")%string)
                    (voice (store (state_after window_with_recognition
                                     session_error_then_started))))
                 (store (state_after window_with_recognition
                           session_error_then_started)),
               [SetError
                  (Some ("Web Speech API error: " ++
                         "Speech recognition error: network")%string);
                Resolve None])).
  { apply (adapter_error_is_surfaced window_with_recognition
             (state_after window_with_recognition
                session_error_then_started)
             "Speech recognition error: network"
             (store (state_after window_with_recognition
                       session_error_then_started))
             R); vm_compute; reflexivity. }
  rewrite E. reflexivity.
Defined.

(** *** Starting when the engine fails *)

(** X6. With the recognition capability, when the engine cannot be
    created or started [startRecording] still returns normally with the
    [isRecording] cell set: the hook reports recording together with the
    start-failure error, the adapter is not listening, and, no recorder
    being there, a [stopRecording] of that render resolves null at once
    and leaves the cell set. *)
Theorem startRecording_engine_failure_still_records :
  forall (cl : Closure) (eng : WebSpeech.EngineOutcome) (s : Store),
    WebSpeech.isSupported (webSpeech cl) = true ->
    eng <> WebSpeech.EngineOk ->
    completion (startRecording cl eng s) = Normal StartReturned /\
    isRecording (render (store_of (startRecording cl eng s))) = true /\
    error (render (store_of (startRecording cl eng s))) =
      Some "Failed to start speech recognition" /\
    WebSpeech.st_isListening (speech (store_of (startRecording cl eng s)))
      = false /\
    (mediaRecorder (voice s) = None ->
     stopRecording (closure_of (store_of (startRecording cl eng s)))
       (store_of (startRecording cl eng s)) =
       (Normal (Resolved None), store_of (startRecording cl eng s),
        [Resolve None])).
Proof.
  intros cl eng s Hsup Heng. unfold startRecording. rewrite Hsup.
  destruct eng; [congruence| |]; cbn;
    (repeat split; [intros Hr; unfold stopRecording; cbn;
                    unfold bind, read; cbn; rewrite Hr; reflexivity]).
Qed.

Lemma startRecording_engine_failure_still_records_witness :
  let s := initial_store window_with_recognition in
  WebSpeech.isSupported (webSpeech (closure_of s)) = true /\
  WebSpeech.ConstructorThrows <> WebSpeech.EngineOk /\
  isRecording
    (render (store_of (startRecording (closure_of s)
                         WebSpeech.ConstructorThrows s))) = true.
Proof.
  split; [reflexivity|]. split; [discriminate|].
  apply (startRecording_engine_failure_still_records
           (closure_of (initial_store window_with_recognition))
           WebSpeech.ConstructorThrows
           (initial_store window_with_recognition));
    [reflexivity | discriminate].
Defined.

(** *** The device path from start to stop *)

Lemma run_dataavailable (data : list Blob) :
  forall sys,
    recorder_has has_ondataavailable sys = true ->
    exists sys',
      run (map DataAvailable data) sys = Some sys' /\
      audioChunks (voice (store sys')) =
        audioChunks (voice (store sys)) ++ kept_chunks data /\
      mediaRecorder (voice (store sys')) = mediaRecorder (voice (store sys)) /\
      history sys' = history sys /\
      pending sys' = pending sys.
Proof.
  induction data as [|d data IH]; intros sys Hrec.
  - exists sys. simpl. rewrite app_nil_r. repeat split.
  - simpl. rewrite Hrec.
    set (sys1 := commit sys (pending sys) no_task
                   (ondataavailable d (store sys))).
    assert (H1 : mediaRecorder (voice (store sys1)) =
                 mediaRecorder (voice (store sys)) /\
                 audioChunks (voice (store sys1)) =
                 audioChunks (voice (store sys)) ++ kept_chunks [d] /\
                 history sys1 = history sys /\
                 pending sys1 = pending sys).
    { unfold sys1, commit, ondataavailable, kept_chunks; simpl.
      destruct (Nat.ltb 0 d); simpl; rewrite !app_nil_r; repeat split. }
    destruct H1 as (Hm & Ha & Hh & Hp).
    destruct (IH sys1) as (sys' & Hrun & Ha' & Hm' & Hh' & Hp').
    { unfold recorder_has. rewrite Hm. exact Hrec. }
    exists sys'. split; [exact Hrun|].
    rewrite Ha', Ha, Hm', Hm, Hh', Hh, Hp', Hp, <- app_assoc.
    repeat split.
    unfold kept_chunks; simpl. destruct (Nat.ltb 0 d); reflexivity.
Qed.

Lemma onstop_builds_blob (s : Store) :
  In (NewBlob (audioChunks (voice s))) (effects_of (onstop false s)).
Proof.
  unfold onstop. cbn. unfold bind. rewrite stop_tracks_run. cbn.
  right; right; left. reflexivity.
Qed.

(** X8. Data events only ever append to the chunk buffer: after any
    sequence of them the buffer is what it was followed by the non-empty
    chunks, in the order they came, empty ones being dropped; nothing
    else changes.  The blob the stop event then builds is made of exactly
    that buffer. *)
Theorem recorded_chunks_reach_the_blob :
  forall (data : list Blob) (sys : Sys),
    recorder_has has_ondataavailable sys = true ->
    exists sys',
      run (map DataAvailable data) sys = Some sys' /\
      audioChunks (voice (store sys')) =
        audioChunks (voice (store sys)) ++ kept_chunks data /\
      mediaRecorder (voice (store sys')) = mediaRecorder (voice (store sys)) /\
      history sys' = history sys /\
      In (NewBlob (audioChunks (voice (store sys)) ++ kept_chunks data))
         (effects_of (onstop false (store sys'))).
Proof.
  intros data sys Hrec.
  destruct (run_dataavailable data sys Hrec)
    as (sys' & Hrun & Ha & Hm & Hh & _).
  exists sys'. repeat split; auto.
  rewrite <- Ha. apply onstop_builds_blob.
Qed.

Lemma recorded_chunks_reach_the_blob_witness :
  let sys := state_after window_without_recognition session_recording in
  exists sys',
    run (map DataAvailable [0; 7; 0; 3]) sys = Some sys' /\
    audioChunks (voice (store sys')) = [5; 7; 3].
Proof.
  destruct (recorded_chunks_reach_the_blob [0; 7; 0; 3]
              (state_after window_without_recognition session_recording))
    as (sys' & Hrun & Ha & _); [vm_compute; reflexivity|].
  exists sys'. split; [exact Hrun|]. rewrite Ha. vm_compute; reflexivity.
Defined.

(** *** What the gateway is sent and what the device path resolves with *)

Lemma append_assoc (a b c : string) :
  ((a ++ b) ++ c)%string = (a ++ b ++ c)%string.
Proof. induction a as [|x a IH]; simpl; congruence. Qed.

Lemma append_nil_r (a : string) : (a ++ "")%string = a.
Proof. induction a as [|x a IH]; simpl; congruence. Qed.

Lemma split_comma_aux_plain (b cur : string) :
  no_comma b = true -> JS.split_comma_aux cur b = [(cur ++ b)%string].
Proof.
  revert cur; induction b as [|c b IH]; intros cur H; simpl in *.
  - now rewrite append_nil_r.
  - apply andb_prop in H as [Hc Hb]. apply negb_true_iff in Hc.
    rewrite Hc, IH by assumption. now rewrite append_assoc.
Qed.

Lemma split_comma_aux_head (a b cur : string) :
  no_comma a = true ->
  JS.split_comma_aux cur (a ++ "," ++ b)%string =
    (cur ++ a)%string :: JS.split_comma_aux "" b.
Proof.
  revert cur; induction a as [|c a IH]; intros cur H; simpl in *.
  - now rewrite append_nil_r.
  - apply andb_prop in H as [Hc Ha]. apply negb_true_iff in Hc.
    rewrite Hc, IH by assumption. now rewrite append_assoc.
Qed.

(** X9. The audio sent to the gateway is what follows the first comma of
    the data URL: for a URL made of a header, a comma and a payload
    without commas, the request carries exactly the payload and the
    handler stays pending with the store untouched.  A URL without any
    comma still sends a request, with the audio undefined; a failed read
    sends none and resolves null with the quota error. *)
Theorem onloadend_sends_the_payload :
  forall (header payload : string) (s : Store),
    no_comma header = true ->
    no_comma payload = true ->
    onloadend (Some (header ++ "," ++ payload)%string) s =
      (Normal Pending, s, [Invoke "voice-to-text" (Some payload)]) /\
    onloadend (Some header) s =
      (Normal Pending, s, [Invoke "voice-to-text" None]) /\
    onloadend None s =
      (Normal (Settled None),
       with_voice
         (with_isProcessing false
            (with_error
               (Some
                  "API quota exceeded. Please try the built-in voice recognition.")
               (voice s)))
         (with_voice
            (with_error
               (Some
                  "API quota exceeded. Please try the built-in voice recognition.")
               (voice s)) s),
       [SetError
          (Some
             "API quota exceeded. Please try the built-in voice recognition.");
        SetIsProcessing false; Resolve None]).
Proof.
  intros header payload s Hh Hp. unfold onloadend, JS.split_comma.
  rewrite (split_comma_aux_head header payload "" Hh).
  rewrite (split_comma_aux_plain payload "" Hp).
  rewrite (split_comma_aux_plain header "" Hh).
  repeat split.
Qed.

Lemma onloadend_sends_the_payload_witness :
  onloadend (Some "data:audio/webm;base64,AAAA")
    (initial_store window_without_recognition) =
    (Normal Pending, initial_store window_without_recognition,
     [Invoke "voice-to-text" (Some "AAAA")]).
Proof.
  apply (onloadend_sends_the_payload "data:audio/webm;base64" "AAAA"
           (initial_store window_without_recognition));
    reflexivity.
Defined.

Lemma onstop_pending_run (s : Store) :
  exists s1 l1,
    onstop false s = (Normal Pending, s1, l1) /\
    st_error (voice s1) = st_error (voice s).
Proof.
  unfold onstop. cbn. unfold bind. rewrite stop_tracks_run. cbn.
  eexists; eexists. split; reflexivity.
Qed.

Lemma onstop_failed_run (s : Store) :
  exists s1 l1, onstop true s = (Normal (Settled None), s1, l1).
Proof.
  unfold onstop. cbn. unfold bind. rewrite stop_tracks_run. cbn.
  eexists; eexists. reflexivity.
Qed.

(** X10. On the device path [stopRecording] resolves with a text only
    when the blob was built, the read gave a data URL and the gateway
    answered without error with a non-empty text: it then resolves with
    exactly that text and sets no error.  It never resolves with the
    empty string. *)
Theorem device_stop_resolves_gateway_text :
  forall (cl : Closure) (o : DeviceOutcome) (s : Store) (r : MediaRecorder)
         (v : string),
    c_isRecording cl = true ->
    WebSpeech.isListening (webSpeech cl) = false ->
    mediaRecorder (voice s) = Some r ->
    completion (device_stop cl o s) = Normal (Settled (Some v)) ->
    v <> "" /\
    blob_throws o = false /\
    (exists url, reader_result o = Some url) /\
    (exists d, gateway o = InvokeReturns (Some d) false /\
               text d = Some v) /\
    st_error (voice (store_of (device_stop cl o s))) = st_error (voice s).
Proof.
  intros cl o s r v Hrec Hlis Hr.
  remember (device_stop cl o s) as res eqn:E.
  unfold device_stop, bind in E.
  rewrite (stopRecording_device_run cl s r Hrec Hlis Hr) in E.
  set (s1 := with_voice _ s) in E.
  assert (Herr : st_error (voice s1) = st_error (voice s)) by reflexivity.
  destruct o as [b result gw]; simpl in E.
  destruct b.
  - destruct (onstop_failed_run s1) as (s2 & l1 & E1). rewrite E1 in E.
    subst res. intros H. discriminate H.
  - destruct (onstop_pending_run s1) as (s2 & l1 & E1 & Herr1).
    rewrite E1 in E.
    destruct result as [url|]; [|subst res; intros H; discriminate H].
    cbn in E.
    destruct gw as [|[d|] []]; cbn in E;
      try (subst res; intros H; discriminate H).
    destruct d as [[t|]]; cbn in E;
      [|subst res; intros H; discriminate H].
    destruct t as [|c t]; cbn in E; subst res; intros H;
      [discriminate H|].
    injection H as <-. simpl.
    split; [discriminate|]. split; [reflexivity|].
    split; [eexists; reflexivity|].
    split; [eexists; split; reflexivity|].
    now rewrite Herr1.
Qed.

Lemma device_stop_resolves_gateway_text_witness :
  let s := store (state_after window_without_recognition session_recording) in
  completion (device_stop (closure_of s) transcribed s) =
    Normal (Settled (Some "transcribed")) /\
  st_error (voice (store_of (device_stop (closure_of s) transcribed s))) =
    st_error (voice s).
Proof.
  split; [vm_compute; reflexivity|].
  apply (device_stop_resolves_gateway_text
           (closure_of
              (store (state_after window_without_recognition
                        session_recording)))
           transcribed
           (store (state_after window_without_recognition session_recording))
           {| stream := [1; 2]; mimeType := "audio/webm;codecs=opus";
              has_ondataavailable := true; has_onstop := false |}
           "transcribed");
    vm_compute; reflexivity.
Defined.

(** *** What the in-browser path resolves with *)

Lemma trimStart_starts_clean (s : string) :
  starts_clean (JS.trimStart s) = true.
Proof.
  induction s as [|c s IH]; simpl; [reflexivity|].
  destruct (JS.is_white_space c) eqn:E; [exact IH|]. simpl. now rewrite E.
Qed.

Lemma trimStart_clean (s : string) :
  starts_clean s = true -> JS.trimStart s = s.
Proof.
  destruct s as [|c s]; simpl; [reflexivity|].
  intros H. apply negb_true_iff in H. now rewrite H.
Qed.

Lemma trimEnd_starts_clean (s : string) :
  starts_clean s = true -> starts_clean (JS.trimEnd s) = true.
Proof.
  destruct s as [|c s]; simpl; [reflexivity|].
  intros H. destruct (JS.trimEnd s); simpl; [|exact H].
  apply negb_true_iff in H. rewrite H. simpl. now rewrite H.
Qed.

Lemma trimEnd_ends_clean (s : string) : ends_clean (JS.trimEnd s) = true.
Proof.
  induction s as [|c s IH]; simpl; [reflexivity|].
  destruct (JS.trimEnd s) as [|d k] eqn:E.
  - destruct (JS.is_white_space c) eqn:Hc; simpl; [reflexivity|].
    now rewrite Hc.
  - exact IH.
Qed.

Lemma trimEnd_idempotent (s : string) :
  JS.trimEnd (JS.trimEnd s) = JS.trimEnd s.
Proof.
  induction s as [|c s IH]; simpl; [reflexivity|].
  destruct (JS.trimEnd s) as [|d k] eqn:E.
  - destruct (JS.is_white_space c) eqn:Hc; simpl; [reflexivity|].
    now rewrite Hc.
  - change (JS.trimEnd (String c (String d k)))
      with (match JS.trimEnd (String d k) with
            | EmptyString => if JS.is_white_space c then EmptyString
                             else String c EmptyString
            | kept => String c kept
            end).
    rewrite IH. reflexivity.
Qed.

Lemma trim_idempotent (s : string) : JS.trim (JS.trim s) = JS.trim s.
Proof.
  unfold JS.trim.
  rewrite (trimStart_clean (JS.trimEnd (JS.trimStart s))).
  - apply trimEnd_idempotent.
  - apply trimEnd_starts_clean, trimStart_starts_clean.
Qed.

(** X11. Whenever the in-browser path resolves with a text, the text is
    the trimmed transcript the call closed over: it is not empty, it
    neither starts nor ends with white space, trimming it again changes
    nothing, and the store, with its error field, is left as it was. *)
Theorem in_browser_result_is_trimmed :
  forall (cl : Closure) (s : Store) (v : string),
    completion (stopRecording_settled cl s) = Normal (Some v) ->
    v = JS.trim (WebSpeech.transcript (webSpeech cl)) /\
    v <> "" /\
    starts_clean v = true /\
    ends_clean v = true /\
    JS.trim v = v /\
    store_of (stopRecording_settled cl s) = s.
Proof.
  intros cl s v. unfold stopRecording_settled. rewrite truthy_trim.
  destruct (JS.truthy (JS.trim (WebSpeech.transcript (webSpeech cl))))
    eqn:Ht.
  - cbn. intros H. injection H as <-.
    split; [reflexivity|]. split; [now apply truthy_nonempty|].
    split; [apply trimEnd_starts_clean, trimStart_starts_clean|].
    split; [apply trimEnd_ends_clean|].
    split; [apply trim_idempotent | reflexivity].
  - destruct (WebSpeech.error (webSpeech cl)) as [e|];
      [destruct (JS.truthy e)|]; cbn; intros H; discriminate H.
Qed.

Lemma in_browser_result_is_trimmed_witness :
  let cl := {| c_isRecording := true;
               webSpeech := {| WebSpeech.isListening := true;
                               WebSpeech.isSupported := true;
                               WebSpeech.transcript := "  hello world ";
                               WebSpeech.error := None;
                               WebSpeech.confidence := 0%Q |} |} in
  completion (stopRecording_settled cl
                (initial_store window_with_recognition)) =
    Normal (Some "hello world") /\
  JS.trim "hello world" = "hello world".
Proof.
  split; [vm_compute; reflexivity|].
  apply (in_browser_result_is_trimmed
           {| c_isRecording := true;
              webSpeech := {| WebSpeech.isListening := true;
                              WebSpeech.isSupported := true;
                              WebSpeech.transcript := "  hello world ";
                              WebSpeech.error := None;
                              WebSpeech.confidence := 0%Q |} |}
           (initial_store window_with_recognition) "hello world").
  vm_compute; reflexivity.
Defined.

(** *** Without the capability, a set [isRecording] means a recorder *)

Lemma onstop_clears_isRecording b s :
  st_isRecording (voice (store_of (onstop b s))) = false.
Proof.
  unfold onstop.
  destruct b; cbn; unfold bind; rewrite stop_tracks_run; reflexivity.
Qed.

Lemma step_recorder_in_place w ev s s' :
  WebSpeech.probe w = false ->
  window (store s) = w /\ recorder_in_place s ->
  step ev s = Some s' ->
  window (store s') = w /\ recorder_in_place s'.
Proof.
  intros Hw [Hwin HP] Hs.
  split; [now rewrite (step_window ev s s' Hs)|].
  unfold recorder_in_place, recorder_has in *.
  destruct s as [st pend hist]; simpl in *.
  destruct ev as [eng| |n acq p|n|n b|n result|n resp| |results|code| |data];
    simpl in Hs.
  - injection Hs as <-. unfold commit, startRecording; simpl.
    rewrite Hwin, Hw. exact HP.
  - injection Hs as <-. unfold commit, stopRecording; simpl.
    destruct (st_isRecording (voice st)) eqn:Hrec; simpl;
      [|cbn; rewrite Hrec; exact HP].
    destruct (WebSpeech.st_isListening (speech st)); simpl.
    + unfold in_speech, lift, WebSpeech.stopListening, bind, read; simpl.
      destruct (WebSpeech.recognition (speech st)); cbn; discriminate.
    + destruct (mediaRecorder (voice st)) as [r|] eqn:Hr;
        repeat (unfold bind, read, assign; simpl; rewrite ?Hr);
        cbn; rewrite ?Hrec, ?Hr; intros _; now apply HP.
  - resumed Hs. injection Hs as <-.
    unfold commit, startRecording_acquired, new_MediaRecorder,
      recorder_start; simpl.
    destruct acq as [tracks|]; [|exact HP].
    destruct (constructor_throws p); [exact HP|].
    destruct (start_throws p); cbn; reflexivity.
  - resumed Hs. injection Hs as <-.
    unfold commit, stopRecording_settled; simpl.
    destruct (JS.truthy _ && JS.truthy _); [exact HP|].
    destruct (WebSpeech.error (webSpeech cl)) as [e|];
      [destruct (JS.truthy e)|]; exact HP.
  - resumed Hs. destruct (recorder_has has_onstop _); [|discriminate].
    injection Hs as <-. unfold commit; cbn [store].
    rewrite onstop_clears_isRecording. discriminate.
  - resumed Hs. injection Hs as <-. unfold commit; cbn [store].
    destruct result; exact HP.
  - resumed Hs. injection Hs as <-. unfold commit; cbn [store].
    destruct resp as [|[d|] []]; exact HP.
  - destruct (engine_has _ _); [|discriminate]. injection Hs as <-.
    unfold commit; cbn [store]. rewrite in_speech_keeps_voice. exact HP.
  - destruct (engine_has _ _); [|discriminate]. injection Hs as <-.
    unfold commit; cbn [store]. rewrite in_speech_keeps_voice. exact HP.
  - destruct (engine_has _ _); [|discriminate]. injection Hs as <-.
    unfold commit; cbn [store]. rewrite in_speech_keeps_voice. exact HP.
  - destruct (engine_has _ _); [|discriminate]. injection Hs as <-.
    unfold commit; cbn [store]. rewrite in_speech_keeps_voice. exact HP.
  - destruct (recorder_has has_ondataavailable _); [|discriminate].
    injection Hs as <-. unfold commit, ondataavailable; simpl.
    destruct (Nat.ltb 0 data); exact HP.
Qed.

Lemma reachable_recorder_in_place w s :
  WebSpeech.probe w = false -> reachable w s -> recorder_in_place s.
Proof.
  intros Hw [evs Hrun].
  assert (H : window (store s) = w /\ recorder_in_place s); [|apply H].
  apply (run_preserves (fun x => window (store x) = w /\ recorder_in_place x))
    with (evs := evs) (s := boot w); auto.
  - intros ev s1 s2. now apply step_recorder_in_place.
  - split; [reflexivity|]. intros H. discriminate H.
Qed.

(** X12. In a window without the recognition capability the
    [isRecording] cell is set only while a recorder with its data handler
    is in [mediaRecorder.current]; so whenever the cell is set, a
    [stopRecording] of the current render gets to
    [mediaRecorder.current.stop()] and waits for the stop event: it never
    resolves at once and never takes the in-browser branch. *)
Theorem unsupported_stop_reaches_the_recorder :
  forall (w : WebSpeech.Window) (sys : Sys),
    WebSpeech.probe w = false ->
    reachable w sys ->
    st_isRecording (voice (store sys)) = true ->
    recorder_has has_ondataavailable sys = true /\
    completion (stopRecording (closure_of (store sys)) (store sys)) =
      Normal AwaitRecorderStop /\
    effects_of (stopRecording (closure_of (store sys)) (store sys)) =
      [RecorderStop].
Proof.
  intros w sys Hw Hreach Hrec.
  pose proof (reachable_recorder_in_place w sys Hw Hreach Hrec) as Hin.
  pose proof (reachable_unsupported_speech w sys Hw Hreach) as Hsp.
  split; [exact Hin|].
  unfold recorder_has in Hin.
  destruct (mediaRecorder (voice (store sys))) as [r|] eqn:Hr;
    [|discriminate Hin].
  rewrite (stopRecording_device_run (closure_of (store sys)) (store sys) r);
    [split; reflexivity | exact Hrec | | exact Hr].
  simpl. now rewrite Hsp.
Qed.

Lemma unsupported_stop_reaches_the_recorder_witness :
  let sys := state_after window_without_recognition session_recording in
  reachable window_without_recognition sys /\
  effects_of (stopRecording (closure_of (store sys)) (store sys)) =
    [RecorderStop].
Proof.
  assert (R : reachable window_without_recognition
                (state_after window_without_recognition session_recording))
    by (exists session_recording; vm_compute; reflexivity).
  split; [exact R|].
  apply (unsupported_stop_reaches_the_recorder window_without_recognition
           (state_after window_without_recognition session_recording)
           eq_refl R).
  vm_compute; reflexivity.
Defined.

(** *** Every in-browser stop is settled once *)

Lemma resolved_app (a b : list Effect) :
  resolved (a ++ b) = resolved a + resolved b.
Proof. unfold resolved. now rewrite filter_app, length_app. Qed.

Lemma length_remove_nth {A : Type} (l : list A) n x :
  nth_error l n = Some x -> S (length (remove_nth n l)) = length l.
Proof.
  revert n; induction l as [|a l IH]; intros [|n] E; simpl in *;
    try discriminate; [reflexivity|].
  now rewrite (IH n E).
Qed.

Lemma step_settles_once w ev s s' :
  WebSpeech.probe w = true ->
  browser_only w s ->
  step ev s = Some s' ->
  resolved (history s') + length (pending s') =
    resolved (history s) + length (pending s) + stop_calls [ev].
Proof.
  intros Hw (Hwin & Hr & Hp & Hq & Hh) Hs.
  destruct s as [st pend hist]; simpl in *.
  destruct ev as [eng| |n acq p|n|n b|n result|n resp| |results|code| |data];
    simpl in Hs.
  - injection Hs as <-. unfold commit, startRecording; cbn -[resolved].
    rewrite Hwin, Hw.
    destruct eng; cbn -[resolved]; rewrite resolved_app, length_app; cbn; lia.
  - injection Hs as <-. unfold commit, stopRecording; cbn -[resolved].
    destruct (st_isRecording (voice st)); cbn -[resolved].
    + destruct (WebSpeech.st_isListening (speech st)); cbn -[resolved].
      * unfold in_speech, lift, WebSpeech.stopListening, bind, read;
          cbn -[resolved].
        destruct (WebSpeech.recognition (speech st)); cbn;
          rewrite resolved_app, length_app; cbn; lia.
      * cbn -[resolved]. rewrite Hr. cbn -[resolved]. rewrite resolved_app, length_app; cbn; lia.
    + cbn -[resolved]. rewrite resolved_app, length_app; cbn; lia.
  - pending_task Hq Hs.
  - pending_task Hq Hs. injection Hs as <-.
    pose proof (length_remove_nth _ _ _ E) as Hlen.
    unfold commit, stopRecording_settled; cbn -[resolved].
    destruct (JS.truthy _ && JS.truthy _);
      [|destruct (WebSpeech.error (webSpeech cl)) as [e|];
        [destruct (JS.truthy e)|]];
      cbn -[resolved]; rewrite resolved_app, length_app; cbn; lia.
  - pending_task Hq Hs.
  - pending_task Hq Hs.
  - pending_task Hq Hs.
  - destruct (engine_has _ _); [|discriminate]. injection Hs as <-.
    cbn -[resolved]. rewrite resolved_app, length_app; cbn; lia.
  - destruct (engine_has _ _); [|discriminate]. injection Hs as <-.
    unfold commit, in_speech, lift, WebSpeech.onresult; cbn -[resolved].
    destruct (JS.last_elem results) as [r|];
      [destruct (WebSpeech.isFinal r)|];
      cbn -[resolved]; rewrite resolved_app, length_app; cbn; lia.
  - destruct (engine_has _ _); [|discriminate]. injection Hs as <-.
    cbn -[resolved]. rewrite resolved_app, length_app; cbn; lia.
  - destruct (engine_has _ _); [|discriminate]. injection Hs as <-.
    cbn -[resolved]. rewrite resolved_app, length_app; cbn; lia.
  - unfold recorder_has in Hs; simpl in Hs. rewrite Hr in Hs. discriminate.
Qed.

Lemma stop_calls_cons ev evs :
  stop_calls (ev :: evs) = stop_calls [ev] + stop_calls evs.
Proof. destruct ev; simpl; lia. Qed.

Lemma run_settles_once w evs :
  WebSpeech.probe w = true ->
  forall s s',
    browser_only w s ->
    run evs s = Some s' ->
    resolved (history s') + length (pending s') =
      resolved (history s) + length (pending s) + stop_calls evs.
Proof.
  intros Hw. induction evs as [|ev evs IH]; intros s s' Hb Hrun.
  - simpl in Hrun. injection Hrun as <-. simpl. lia.
  - simpl in Hrun. destruct (step ev s) as [s1|] eqn:E; [|discriminate].
    rewrite (IH s1 s' (step_browser_only w ev s s1 Hw Hb E) Hrun).
    rewrite (step_settles_once w ev s s1 Hw Hb E), (stop_calls_cons ev evs).
    lia.
Qed.

(** X13. In a window with the recognition capability no call of
    [stopRecording] is lost or settled twice: after any events, the
    promises resolved so far plus the calls still waiting on their settle
    timer are exactly the calls of [stopRecording] made, and nothing else
    is ever pending. *)
Theorem in_browser_stops_settle_once :
  forall (w : WebSpeech.Window) (evs : list Event) (sys : Sys),
    WebSpeech.probe w = true ->
    run evs (boot w) = Some sys ->
    resolved (history sys) + length (pending sys) = stop_calls evs /\
    forallb is_settling (pending sys) = true.
Proof.
  intros w evs sys Hw Hrun.
  assert (Hb : browser_only w (boot w)) by (repeat split).
  split.
  - now rewrite (run_settles_once w evs Hw (boot w) sys Hb Hrun).
  - apply (reachable_browser_only w sys Hw). now exists evs.
Qed.

Lemma in_browser_stops_settle_once_witness :
  let sys := state_after window_with_recognition session_late_final in
  WebSpeech.probe window_with_recognition = true /\
  resolved (history sys) + length (pending sys) = 1.
Proof.
  split; [reflexivity|].
  apply (in_browser_stops_settle_once window_with_recognition
           session_late_final
           (state_after window_with_recognition session_late_final));
    vm_compute; reflexivity.
Defined.

(** *** The chat composer *)

Lemma toString_inj (a b : N) :
  ChatInterface.toString a = ChatInterface.toString b -> a = b.
Proof.
  unfold ChatInterface.toString. intros H.
  assert (Hn : forall n, N.to_uint n <> Decimal.Nil).
  { intros [|p]; [discriminate | apply DecimalPos.Unsigned.to_uint_nonnil]. }
  apply DecimalN.Unsigned.to_uint_inj.
  pose proof (DecimalString.NilZero.usu (N.to_uint a) (Hn a)) as Ha.
  pose proof (DecimalString.NilZero.usu (N.to_uint b) (Hn b)) as Hb.
  rewrite H in Ha. rewrite Ha in Hb. now injection Hb.
Qed.

(** X14. A send with nothing to send does nothing: when the input is
    empty or only white space and no image is attached,
    [handleSendMessage] returns at once, appends no message, sends no
    request and leaves the input as it is. *)
Theorem handleSendMessage_ignores_blank :
  forall (r : ChatInterface.Render) (c : ChatInterface.Clock)
         (s : ChatInterface.State),
    JS.trim (ChatInterface.r_inputValue r) = "" ->
    ChatInterface.r_selectedImage r = None ->
    ChatInterface.handleSendMessage r c s =
      (s, [], ChatInterface.SendReturned).
Proof.
  intros r c s Ht Hi. unfold ChatInterface.handleSendMessage.
  rewrite Ht, Hi. reflexivity.
Qed.

Lemma handleSendMessage_ignores_blank_witness :
  JS.trim (ChatInterface.r_inputValue blank_render) = "" /\
  ChatInterface.handleSendMessage blank_render noon ChatInterface.initial =
    (ChatInterface.initial, [], ChatInterface.SendReturned).
Proof.
  split; [reflexivity|].
  apply (handleSendMessage_ignores_blank blank_render noon
           ChatInterface.initial); reflexivity.
Defined.

Lemma handleSendMessage_run :
  forall (r : ChatInterface.Render) (c : ChatInterface.Clock)
         (s : ChatInterface.State),
    JS.trim (ChatInterface.r_inputValue r) <> "" \/
    ChatInterface.r_selectedImage r <> None ->
    ChatInterface.handleSendMessage r c s =
      ({| ChatInterface.messages :=
            ChatInterface.messages s ++
            [{| ChatInterface.id :=
                  ChatInterface.toString (ChatInterface.date_now c);
                ChatInterface.content := Some (ChatInterface.r_inputValue r);
                ChatInterface.sender := ChatInterface.user;
                ChatInterface.timestamp := ChatInterface.new_date c;
                ChatInterface.imageUrl :=
                  option_map ChatInterface.url
                    (ChatInterface.r_selectedImage r);
                ChatInterface.imageName :=
                  option_map ChatInterface.name
                    (ChatInterface.r_selectedImage r) |}];
          ChatInterface.inputValue := "";
          ChatInterface.selectedImage := None |},
       [match ChatInterface.r_selectedImage r with
        | Some image =>
            ChatInterface.InvokeFunction "image-analysis"
              (ChatInterface.ImageAnalysisBody (ChatInterface.url image)
                 (match ChatInterface.r_inputValue r with
                  | EmptyString => "What do you see in this image?"
                  | typed => typed
                  end))
        | None =>
            ChatInterface.InvokeFunction "chat-openai"
              (ChatInterface.ChatBody (ChatInterface.r_inputValue r))
        end],
       ChatInterface.AwaitInvoke (ChatInterface.r_selectedImage r)).
Proof.
  intros r c s H. unfold ChatInterface.handleSendMessage.
  destruct (ChatInterface.r_selectedImage r) as [image|] eqn:Hi.
  - rewrite andb_false_r.
    destruct (ChatInterface.r_inputValue r); reflexivity.
  - destruct H as [H|H]; [|congruence].
    apply truthy_nonempty in H. rewrite H. reflexivity.
Qed.

(** X15. Whenever there is a text or an image, [handleSendMessage]
    appends one user message after the messages already there, carrying
    the input as typed (untrimmed) and the image's url and name, clears
    the input and the attached image, and sends exactly one request: with
    an image, to [image-analysis] with its url and the text, or the stock
    question when the text is empty; without one, to [chat-openai] with
    the text. *)
Theorem handleSendMessage_sends_one_request :
  forall (r : ChatInterface.Render) (c : ChatInterface.Clock)
         (s : ChatInterface.State),
    JS.trim (ChatInterface.r_inputValue r) <> "" \/
    ChatInterface.r_selectedImage r <> None ->
    ChatInterface.handleSendMessage r c s =
      ({| ChatInterface.messages :=
            ChatInterface.messages s ++
            [{| ChatInterface.id :=
                  ChatInterface.toString (ChatInterface.date_now c);
                ChatInterface.content := Some (ChatInterface.r_inputValue r);
                ChatInterface.sender := ChatInterface.user;
                ChatInterface.timestamp := ChatInterface.new_date c;
                ChatInterface.imageUrl :=
                  option_map ChatInterface.url
                    (ChatInterface.r_selectedImage r);
                ChatInterface.imageName :=
                  option_map ChatInterface.name
                    (ChatInterface.r_selectedImage r) |}];
          ChatInterface.inputValue := "";
          ChatInterface.selectedImage := None |},
       [match ChatInterface.r_selectedImage r with
        | Some image =>
            ChatInterface.InvokeFunction "image-analysis"
              (ChatInterface.ImageAnalysisBody (ChatInterface.url image)
                 (match ChatInterface.r_inputValue r with
                  | EmptyString => "What do you see in this image?"
                  | typed => typed
                  end))
        | None =>
            ChatInterface.InvokeFunction "chat-openai"
              (ChatInterface.ChatBody (ChatInterface.r_inputValue r))
        end],
       ChatInterface.AwaitInvoke (ChatInterface.r_selectedImage r)).
Proof. intros r c s H. now apply handleSendMessage_run. Qed.

Lemma handleSendMessage_sends_one_request_witness :
  snd (fst (ChatInterface.handleSendMessage hello_render noon
              ChatInterface.initial)) =
    [ChatInterface.InvokeFunction "chat-openai"
       (ChatInterface.ChatBody " hello ")].
Proof.
  rewrite (handleSendMessage_sends_one_request hello_render noon
             ChatInterface.initial);
    [reflexivity | left; vm_compute; discriminate].
Defined.

(** X16. An exchange adds exactly two messages, whatever the gateway
    does: the user's, then one from the assistant, after the messages
    already there.  The assistant's content is the answer's [analysis]
    when an image was sent and its [message] otherwise, and the stock
    apology when the request rejects, reports an error or has no data.
    When the clock did not go back in between, the two ids differ. *)
Theorem exchange_appends_question_and_answer :
  forall (r : ChatInterface.Render) (c c' : ChatInterface.Clock)
         (resp : ChatInterface.Response) (s : ChatInterface.State),
    JS.trim (ChatInterface.r_inputValue r) <> "" \/
    ChatInterface.r_selectedImage r <> None ->
    (ChatInterface.date_now c <= ChatInterface.date_now c')%N ->
    exists q a,
      ChatInterface.messages
        (ChatInterface.handleSendMessage_answered
           (ChatInterface.r_selectedImage r) c' resp
           (fst (fst (ChatInterface.handleSendMessage r c s)))) =
        ChatInterface.messages s ++ [q; a] /\
      ChatInterface.sender q = ChatInterface.user /\
      ChatInterface.content q = Some (ChatInterface.r_inputValue r) /\
      ChatInterface.sender a = ChatInterface.assistant /\
      ChatInterface.content a =
        match resp with
        | ChatInterface.InvokeReturns (Some data) false =>
            match ChatInterface.r_selectedImage r with
            | Some _ => ChatInterface.analysis data
            | None => ChatInterface.message data
            end
        | _ => Some ChatInterface.apology
        end /\
      ChatInterface.id q <> ChatInterface.id a.
Proof.
  intros r c c' resp s H Hclock.
  rewrite (handleSendMessage_run r c s H).
  cbn [fst snd].
  assert (Hid : ChatInterface.toString (ChatInterface.date_now c) <>
                ChatInterface.toString (ChatInterface.date_now c' + 1)).
  { intros E. apply toString_inj in E. lia. }
  destruct resp as [|[data|] []]; cbn; eexists; eexists;
    (split; [rewrite <- app_assoc; reflexivity|]);
    repeat split; try exact Hid;
    destruct (ChatInterface.r_selectedImage r); reflexivity.
Qed.

Lemma exchange_appends_question_and_answer_witness :
  exists q a,
    ChatInterface.messages
      (ChatInterface.handleSendMessage_answered None noon
         ChatInterface.InvokeRejects
         (fst (fst (ChatInterface.handleSendMessage hello_render noon
                      ChatInterface.initial)))) = [q; a] /\
    ChatInterface.content a = Some ChatInterface.apology.
Proof.
  destruct (exchange_appends_question_and_answer hello_render noon noon
              ChatInterface.InvokeRejects ChatInterface.initial)
    as (q & a & Hm & _ & _ & _ & Hc & _).
  - left. vm_compute. discriminate.
  - vm_compute. discriminate.
  - exists q, a. split; [exact Hm | exact Hc].
Defined.

(** X17. The answer is appended to whatever the list is when it
    arrives: when the chat was restarted while the request was in flight,
    the new chat consists of that single assistant message, and the input
    typed meanwhile is kept. *)
Theorem late_answer_lands_in_new_chat :
  forall (image : option ChatInterface.SelectedImage)
         (c : ChatInterface.Clock) (resp : ChatInterface.Response)
         (s : ChatInterface.State),
    exists a,
      ChatInterface.handleSendMessage_answered image c resp
        (ChatInterface.startNewChat s) =
        {| ChatInterface.messages := [a];
           ChatInterface.inputValue := ChatInterface.inputValue s;
           ChatInterface.selectedImage := None |} /\
      ChatInterface.sender a = ChatInterface.assistant.
Proof.
  intros image c resp s.
  destruct resp as [|[data|] []]; eexists; split; reflexivity.
Qed.

(** X18. The stop button reports the error of the render it was clicked
    in.  When it is clicked in a render that listens, reports recording
    and shows no error, and nothing was heard, the handler awaits
    [stopRecording]; that call resolves null and sets the no-speech
    error, which the hook then reports; but the handler, resumed with
    null, raises no toast and changes nothing in the composer. *)
Theorem stop_click_misses_the_new_error :
  forall (sys : Sys) (s2 : Store) (chat : ChatInterface.State),
    st_isRecording (voice (store sys)) = true ->
    WebSpeech.st_isListening (speech (store sys)) = true ->
    JS.trim (WebSpeech.st_transcript (speech (store sys))) = "" ->
    JS.truthy_opt (error (render (store sys))) = false ->
    ChatInterface.handleVoiceInput
      (ChatInterface.render chat (render (store sys))) =
      ChatInterface.AwaitStopRecording /\
    completion (stopRecording (closure_of (store sys)) (store sys)) =
      Normal AwaitSettle /\
    completion (stopRecording_settled (closure_of (store sys)) s2) =
      Normal None /\
    error (render (store_of (stopRecording_settled (closure_of (store sys))
                               s2))) =
      Some "No speech detected. Please try again." /\
    ChatInterface.handleVoiceInput_stopped
      (ChatInterface.render chat (render (store sys))) None chat =
      (chat, []).
Proof.
  intros sys s2 chat Hrec Hlis Ht Herr.
  assert (Hadapter : JS.truthy_opt (WebSpeech.st_error (speech (store sys)))
                     = false).
  { unfold render, closure_of, JS.or_else in Herr; simpl in Herr.
    destruct (JS.truthy_opt (st_error (voice (store sys)))) eqn:E;
      [congruence | exact Herr]. }
  split; [|split; [|split; [|split]]].
  - unfold ChatInterface.handleVoiceInput, render, closure_of; simpl.
    now rewrite Hrec.
  - unfold stopRecording, closure_of; simpl. rewrite Hrec, Hlis; simpl.
    unfold in_speech, lift, WebSpeech.stopListening, bind, read; simpl.
    destruct (WebSpeech.recognition (speech (store sys))); reflexivity.
  - unfold stopRecording_settled, closure_of; simpl.
    rewrite truthy_trim, Ht; simpl.
    destruct (WebSpeech.st_error (speech (store sys))) as [[|x e]|];
      simpl in Hadapter; try discriminate Hadapter; reflexivity.
  - unfold stopRecording_settled, closure_of; simpl.
    rewrite truthy_trim, Ht; simpl.
    destruct (WebSpeech.st_error (speech (store sys))) as [[|x e]|];
      simpl in Hadapter; try discriminate Hadapter; reflexivity.
  - unfold ChatInterface.handleVoiceInput_stopped,
      ChatInterface.report_failure.
    cbn [ChatInterface.render ChatInterface.r_voice].
    destruct (error (render (store sys))) as [[|x e]|]; simpl in Herr;
      try discriminate Herr; reflexivity.
Qed.

Lemma stop_click_misses_the_new_error_witness :
  let sys := state_after window_with_recognition session_listening in
  ChatInterface.handleVoiceInput_stopped
    (ChatInterface.render ChatInterface.initial (render (store sys))) None
    ChatInterface.initial = (ChatInterface.initial, []).
Proof.
  apply (stop_click_misses_the_new_error
           (state_after window_with_recognition session_listening)
           (store (state_after window_with_recognition session_listening))
           ChatInterface.initial);
    vm_compute; reflexivity.
Defined.

(** *** The image upload *)

(** X19. A selection that cannot be uploaded changes nothing: without a
    file or without a signed-in user nothing happens at all; a file whose
    type does not start with [image/] raises exactly the destructive
    toast [Invalid file type], and an image larger than 5 MB exactly the
    destructive toast [File too large].  In none of these cases is the
    file read or uploaded, and [isUploading] is not touched. *)
Theorem handleFileSelect_rejects :
  forall (file : option ImageUpload.File) (usr : option ImageUpload.User)
         (now : N) (s : ImageUpload.State),
    file = None \/ usr = None \/
    (exists f, file = Some f /\
               (String.prefix "image/" (ImageUpload.file_type f) = false \/
                (ImageUpload.max_size < ImageUpload.file_size f)%N)) ->
    fst (fst (ImageUpload.handleFileSelect file usr now s)) = s /\
    snd (ImageUpload.handleFileSelect file usr now s) =
      ImageUpload.SelectReturned /\
    existsb uploads (snd (fst (ImageUpload.handleFileSelect file usr now s)))
      = false /\
    length (snd (fst (ImageUpload.handleFileSelect file usr now s))) <= 1 /\
    ((file = None \/ usr = None) ->
     snd (fst (ImageUpload.handleFileSelect file usr now s)) = []) /\
    (forall f u,
       file = Some f -> usr = Some u ->
       String.prefix "image/" (ImageUpload.file_type f) = false ->
       snd (fst (ImageUpload.handleFileSelect file usr now s)) =
         [ImageUpload.Toast "Invalid file type"
            "Please select an image file" true]) /\
    (forall f u,
       file = Some f -> usr = Some u ->
       String.prefix "image/" (ImageUpload.file_type f) = true ->
       (ImageUpload.max_size < ImageUpload.file_size f)%N ->
       snd (fst (ImageUpload.handleFileSelect file usr now s)) =
         [ImageUpload.Toast "File too large"
            "Please select an image smaller than 5MB" true]).
Proof.
  intros file usr now s H. unfold ImageUpload.handleFileSelect.
  destruct file as [f|];
    [|repeat split; simpl; try lia; intros; discriminate].
  destruct usr as [u|];
    [|repeat split; simpl; try lia; intros; discriminate].
  destruct H as [H|[H|(f' & Hf & H)]]; try discriminate.
  injection Hf as <-.
  destruct (String.prefix "image/" (ImageUpload.file_type f)) eqn:Hp; simpl.
  - destruct H as [H|H]; [discriminate|].
    apply N.ltb_lt in H. rewrite H.
    repeat split; simpl; try lia;
      try (intros [E|E]; discriminate E);
      intros; first [reflexivity | congruence].
  - repeat split; simpl; try lia;
      try (intros [E|E]; discriminate E);
      intros; first [reflexivity | congruence].
Qed.

Lemma handleFileSelect_rejects_witness :
  let big := {| ImageUpload.file_name := "cat.png";
                ImageUpload.file_type := "image/png";
                ImageUpload.file_size := 5 * 1024 * 1024 + 1 |} in
  (ImageUpload.max_size < ImageUpload.file_size big)%N /\
  fst (fst (ImageUpload.handleFileSelect (Some big) (Some alice) 1000
              upload_idle)) = upload_idle /\
  snd (fst (ImageUpload.handleFileSelect (Some big) (Some alice) 1000
              upload_idle)) =
    [ImageUpload.Toast "File too large"
       "Please select an image smaller than 5MB" true].
Proof.
  split; [reflexivity|].
  destruct (handleFileSelect_rejects
              (Some {| ImageUpload.file_name := "cat.png";
                       ImageUpload.file_type := "image/png";
                       ImageUpload.file_size := 5 * 1024 * 1024 + 1 |})
              (Some alice) 1000 upload_idle)
    as (Hs & _ & _ & _ & _ & _ & Hbig).
  - right; right. eexists. split; [reflexivity|]. right. reflexivity.
  - split; [exact Hs|].
    apply (Hbig _ alice eq_refl eq_refl); reflexivity.
Defined.

Lemma prefix_append (a b : string) : String.prefix a (a ++ b)%string = true.
Proof.
  induction a as [|c a IH]; simpl.
  - now destruct b.
  - destruct (ascii_dec c c); [exact IH | congruence].
Qed.

(** X20. An image of at most 5 MB (5242880 bytes included) selected by a
    signed-in user is read for the preview and uploaded to the
    [chat-images] bucket under the user's own folder: the object name is
    the user id, a slash, the time, a dash and the file name.
    [isUploading] is set and the handler waits for the upload. *)
Theorem handleFileSelect_uploads :
  forall (f : ImageUpload.File) (u : ImageUpload.User) (now : N)
         (s : ImageUpload.State),
    String.prefix "image/" (ImageUpload.file_type f) = true ->
    (ImageUpload.file_size f <= 5242880)%N ->
    exists path,
      ImageUpload.handleFileSelect (Some f) (Some u) now s =
        (ImageUpload.setIsUploading true s,
         [ImageUpload.ReadAsDataURL f;
          ImageUpload.Upload "chat-images" path f],
         ImageUpload.AwaitUpload path f) /\
      path = (ImageUpload.user_id u ++ "/" ++ ChatInterface.toString now
              ++ "-" ++ ImageUpload.file_name f)%string /\
      String.prefix (ImageUpload.user_id u ++ "/") path = true.
Proof.
  intros f u now s Hp Hsize. eexists. split; [|split; [reflexivity|]].
  - unfold ImageUpload.handleFileSelect. rewrite Hp; simpl.
    replace (ImageUpload.max_size <? ImageUpload.file_size f)%N with false;
      [reflexivity|].
    symmetry. apply N.ltb_ge. exact Hsize.
  - rewrite <- append_assoc. apply prefix_append.
Qed.

Lemma handleFileSelect_uploads_witness :
  exists path,
    ImageUpload.handleFileSelect (Some photo) (Some alice) 1000 upload_idle =
      (ImageUpload.setIsUploading true upload_idle,
       [ImageUpload.ReadAsDataURL photo;
        ImageUpload.Upload "chat-images" path photo],
       ImageUpload.AwaitUpload path photo) /\
    path = "alice/1000-cat.png".
Proof.
  destruct (handleFileSelect_uploads photo alice 1000 upload_idle)
    as (path & H & Hpath & _).
  - reflexivity.
  - vm_compute. discriminate.
  - exists path. split; [exact H|]. rewrite Hpath. vm_compute; reflexivity.
Defined.

(** X21. However the upload ends, [isUploading] is false afterwards and
    exactly one toast is raised: the success toast when the upload
    returned without error, the destructive failure toast otherwise.  The
    parent is handed an image exactly when the upload returned without
    error, and then by a single call, with the public url and the file's
    own name; on a rejection or an error the preview is cleared and the
    parent is not called at all. *)
Theorem handleFileSelect_uploaded_settles :
  forall (path : string) (f : ImageUpload.File)
         (out : ImageUpload.UploadOutcome) (s : ImageUpload.State),
    ImageUpload.isUploading
      (fst (ImageUpload.handleFileSelect_uploaded path f out s)) = false /\
    length (filter is_upload_toast
              (snd (ImageUpload.handleFileSelect_uploaded path f out s))) = 1
    /\
    filter is_upload_toast
      (snd (ImageUpload.handleFileSelect_uploaded path f out s)) =
      match out with
      | ImageUpload.UploadReturns false _ =>
          [ImageUpload.Toast "Image uploaded"
             "Your image has been uploaded successfully" false]
      | _ =>
          [ImageUpload.Toast "Upload failed"
             "Failed to upload image. Please try again." true]
      end /\
    filter is_image_select
      (snd (ImageUpload.handleFileSelect_uploaded path f out s)) =
      match out with
      | ImageUpload.UploadReturns false imageUrl =>
          [ImageUpload.OnImageSelect imageUrl (ImageUpload.file_name f)]
      | _ => []
      end /\
    (forall imageUrl fileName,
       In (ImageUpload.OnImageSelect imageUrl fileName)
          (snd (ImageUpload.handleFileSelect_uploaded path f out s)) <->
       out = ImageUpload.UploadReturns false imageUrl /\
       fileName = ImageUpload.file_name f) /\
    (out = ImageUpload.UploadRejects \/
     (exists imageUrl, out = ImageUpload.UploadReturns true imageUrl) ->
     ImageUpload.previewImage
       (fst (ImageUpload.handleFileSelect_uploaded path f out s)) = None).
Proof.
  intros path f out s.
  destruct out as [|[] publicUrl]; simpl.
  - split; [reflexivity|]. split; [reflexivity|].
    split; [reflexivity|]. split; [reflexivity|]. split; [|reflexivity].
    intros imageUrl fileName. split.
    + intros [H|H]; [discriminate H | contradiction].
    + intros [H _]. discriminate H.
  - split; [reflexivity|]. split; [reflexivity|].
    split; [reflexivity|]. split; [reflexivity|]. split; [|reflexivity].
    intros imageUrl fileName. split.
    + intros [H|H]; [discriminate H | contradiction].
    + intros [H _]. discriminate H.
  - split; [reflexivity|]. split; [reflexivity|].
    split; [reflexivity|]. split; [reflexivity|]. split.
    + intros imageUrl fileName. split.
      * intros [H|[H|[H|H]]]; try discriminate H; try contradiction.
        injection H as <- <-. split; reflexivity.
      * intros [H ->]. injection H as <-. right; left. reflexivity.
    + intros [H|(u & H)]; discriminate H.
Qed.

(** X22. From the upload to the request: when an accepted image was
    uploaded without error, the parent is handed its public url and
    name; once the composer has taken them with [handleImageSelect], a
    send goes to [image-analysis] with that url even when the input is
    blank (the stock question is asked when it is empty), the user
    message carries the url and the file's name, and the attachment is
    cleared. *)
Theorem uploaded_image_is_analysed :
  forall (f : ImageUpload.File) (u : ImageUpload.User) (now : N)
         (s : ImageUpload.State) (publicUrl : string)
         (chat : ChatInterface.State) (voicehook : VoiceRecording.Hook)
         (c : ChatInterface.Clock),
    String.prefix "image/" (ImageUpload.file_type f) = true ->
    (ImageUpload.file_size f <= 5242880)%N ->
    exists path q,
      snd (ImageUpload.handleFileSelect (Some f) (Some u) now s) =
        ImageUpload.AwaitUpload path f /\
      In (ImageUpload.OnImageSelect publicUrl (ImageUpload.file_name f))
         (snd (ImageUpload.handleFileSelect_uploaded path f
                 (ImageUpload.UploadReturns false publicUrl)
                 (fst (fst (ImageUpload.handleFileSelect (Some f) (Some u)
                              now s))))) /\
      ChatInterface.handleSendMessage
        (ChatInterface.render
           (ChatInterface.handleImageSelect publicUrl
              (ImageUpload.file_name f) chat) voicehook)
        c
        (ChatInterface.handleImageSelect publicUrl
           (ImageUpload.file_name f) chat) =
        ({| ChatInterface.messages := ChatInterface.messages chat ++ [q];
            ChatInterface.inputValue := "";
            ChatInterface.selectedImage := None |},
         [ChatInterface.InvokeFunction "image-analysis"
            (ChatInterface.ImageAnalysisBody publicUrl
               (match ChatInterface.inputValue chat with
                | EmptyString => "What do you see in this image?"
                | typed => typed
                end))],
         ChatInterface.AwaitInvoke
           (Some {| ChatInterface.url := publicUrl;
                    ChatInterface.name := ImageUpload.file_name f |})) /\
      ChatInterface.imageUrl q = Some publicUrl /\
      ChatInterface.imageName q = Some (ImageUpload.file_name f).
Proof.
  intros f u now s publicUrl chat voicehook c Hp Hsize.
  eexists. eexists. split; [|split; [|split; [|split]]].
  - unfold ImageUpload.handleFileSelect. rewrite Hp; simpl.
    replace (ImageUpload.max_size <? ImageUpload.file_size f)%N with false;
      [reflexivity|].
    symmetry. apply N.ltb_ge. exact Hsize.
  - simpl. right; left. reflexivity.
  - rewrite handleSendMessage_run; [reflexivity|].
    right. discriminate.
  - reflexivity.
  - reflexivity.
Qed.

Lemma uploaded_image_is_analysed_witness :
  exists path q,
    snd (ImageUpload.handleFileSelect (Some photo) (Some alice) 1000
           upload_idle) = ImageUpload.AwaitUpload path photo /\
    ChatInterface.imageUrl q = Some "https://cdn/cat.png".
Proof.
  destruct (uploaded_image_is_analysed photo alice 1000 upload_idle
              "https://cdn/cat.png" ChatInterface.initial idle_voice noon)
    as (path & q & H & _ & _ & Hq & _).
  - reflexivity.
  - vm_compute. discriminate.
  - exists path, q. split; [exact H | exact Hq].
Defined.

(** *** Errors as the hook reports them *)

(** X23. With the recognition capability, a [startRecording] whose
    engine starts leaves no error to report, whatever errors the
    orchestrator and the adapter held before: both are cleared, the old
    transcript is emptied, and the hook reports recording. *)
Theorem startRecording_clears_both_errors :
  forall (cl : Closure) (s : Store),
    WebSpeech.isSupported (webSpeech cl) = true ->
    error (render (store_of (startRecording cl WebSpeech.EngineOk s)))
      = None /\
    WebSpeech.st_transcript
      (speech (store_of (startRecording cl WebSpeech.EngineOk s))) = "" /\
    isRecording (render (store_of (startRecording cl WebSpeech.EngineOk s)))
      = true.
Proof.
  intros cl s H. unfold startRecording. rewrite H. repeat split.
Qed.

Lemma startRecording_clears_both_errors_witness :
  let s :=
    store (state_after window_with_recognition session_error_then_started) in
  error (render s) = Some "Speech recognition error: network" /\
  error (render (store_of (startRecording (closure_of s)
                             WebSpeech.EngineOk s))) = None.
Proof.
  split; [vm_compute; reflexivity|].
  apply (startRecording_clears_both_errors
           (closure_of
              (store (state_after window_with_recognition
                        session_error_then_started)))
           (store (state_after window_with_recognition
                     session_error_then_started))).
  vm_compute; reflexivity.
Defined.



(** *** The device path in the component over time *)















